(** * maya-tweener: a shallow embedding of [tweener.py] and [mods/utils.py]

    The plug-in is Python code running inside Maya.  Python floats are IEEE
    binary64 numbers, embedded as primitive floats; Python exceptions are an
    error monad; the Maya session (dependency graph, selection, panels,
    channel box, curve values, change objects) is an explicit state that the
    functions read and thread. *)

From Stdlib Require Import ZArith Floats.
From stdpp Require Import gmap strings list fin_maps.

Open Scope Z_scope.

(** ** Python exceptions *)

Module Py.

(** [HostError] stands for whatever exception a Maya API call raises when it
    rejects its arguments; the two others are raised by the interpreter. *)
Inductive exn : Type :=
| HostError
| AttributeError
| TypeError.

Inductive result (A : Type) : Type :=
| Ok (a : A)
| Raise (e : exn).
Arguments Ok {A} a.
Arguments Raise {A} e.

#[export] Instance result_ret : MRet result := fun A a => Ok a.

#[export] Instance result_bind : MBind result := fun A B k r =>
  match r with
  | Ok a => k a
  | Raise e => Raise e
  end.

Definition fails {A : Type} (r : result A) : Prop := ∃ e, r = Raise e.

(** Numbers as Maya hands them to Python. *)
Inductive num : Type :=
| PyBool (b : bool)
| PyInt (z : Z)
| PyFloat (f : float).

Definition float_of_Z (z : Z) : float :=
  if z <? 0 then PrimFloat.opp (PrimFloat.of_uint63 (Uint63.of_Z (- z)))
  else PrimFloat.of_uint63 (Uint63.of_Z z).

(** [float(x)] *)
Definition to_float (x : num) : float :=
  match x with
  | PyBool b => if b then 1%float else 0%float
  | PyInt z => float_of_Z z
  | PyFloat f => f
  end.

(** Truth value of a number in an [if]. *)
Definition truthy (x : num) : bool :=
  match x with
  | PyBool b => b
  | PyInt z => negb (z =? 0)
  | PyFloat f => negb (PrimFloat.eqb f 0%float)
  end.

End Py.

Import Py.

(** ** Animation curves as [MFnAnimCurve] shows them *)

Inductive MTimeUnit : Type := kSeconds | kMilliseconds | kFilm | kNTSCFrame.

(** An [MTime] answers [asUnits] for every unit. *)
Record MTime : Type := mkMTime { asUnits : MTimeUnit → float }.

Record Key : Type := mkKey {
  key_input : MTime;
  key_value : float;
  key_tangent_in : float * float;
  key_tangent_out : float * float
}.

Record MFnAnimCurve : Type := mkCurve { curve_keys : list Key }.

Module AnimCurve.

(** Key [index] of the curve; the API rejects an index outside
    [0 .. numKeys - 1]. *)
Definition key_at (c : MFnAnimCurve) (index : Z) : option Key :=
  if index <? 0 then None else curve_keys c !! Z.to_nat index.

Definition valid_index (c : MFnAnimCurve) (index : Z) : bool :=
  (0 <=? index) && (index <? Z.of_nat (length (curve_keys c))).

Definition at_key {A : Type} (c : MFnAnimCurve) (index : Z) (f : Key → A)
  : result A :=
  match key_at c index with
  | Some k => Ok (f k)
  | None => Raise HostError
  end.

Definition input (c : MFnAnimCurve) (index : Z) : result MTime :=
  at_key c index key_input.

Definition value (c : MFnAnimCurve) (index : Z) : result float :=
  at_key c index key_value.

Definition getTangentXY (c : MFnAnimCurve) (index : Z) (isInTangent : bool)
  : result (float * float) :=
  at_key c index (if isInTangent then key_tangent_in else key_tangent_out).

End AnimCurve.

(** ** [mods/utils.py]: the Bezier points of a curve segment *)

Record Point : Type := mkPoint { x : float; y : float }.

Definition get_curve_tangents_bezier_points
    (curve_fn : MFnAnimCurve) (start_index end_index : Z)
  : result (Point * Point * Point * Point) :=
  t1 ← AnimCurve.input curve_fn start_index;
  v1 ← AnimCurve.value curve_fn start_index;
  let p1 := mkPoint (asUnits t1 kSeconds) v1 in
  t4 ← AnimCurve.input curve_fn end_index;
  v4 ← AnimCurve.value curve_fn end_index;
  let p4 := mkPoint (asUnits t4 kSeconds) v4 in
  p2 ← AnimCurve.getTangentXY curve_fn start_index false;  (* inTangent = False *)
  let p2 := mkPoint (x p1 + fst p2 / 3)%float (y p1 + snd p2 / 3)%float in
  p3 ← AnimCurve.getTangentXY curve_fn end_index true;     (* inTangent = True *)
  let p3 := mkPoint (x p4 - fst p3 / 3)%float (y p4 - snd p3 / 3)%float in
  Ok (p1, p2, p3, p4).

(** A two-key curve: (0 s, 0.0) and (1 s, 10.0), with distinct handles. *)
Definition seconds (s : float) : MTime :=
  mkMTime (fun u => match u with
                    | kSeconds => s
                    | kMilliseconds => (s * 1000)%float
                    | kFilm => (s * 24)%float
                    | kNTSCFrame => (s * 30)%float
                    end).

Definition demo_curve : MFnAnimCurve :=
  mkCurve [ mkKey (seconds 0) 0 (1.5, 6)%float (0.375, 0.75)%float;
            mkKey (seconds 1) 10 (0.75, 1.5)%float (3, 12)%float ].

(** ** The dependency graph, the selection and the panels *)

(** [MFn] type ids: function-set ids used as filters, the eight animation-curve
    node types, some other node types, and attribute types. *)
Inductive MFnType : Type :=
| kDependencyNode
| kAnimCurve
| kAnimCurveTimeToAngular
| kAnimCurveTimeToDistance
| kAnimCurveTimeToUnitless
| kAnimCurveTimeToTime
| kAnimCurveUnitlessToAngular
| kAnimCurveUnitlessToDistance
| kAnimCurveUnitlessToUnitless
| kAnimCurveUnitlessToTime
| kTransform
| kJoint
| kMesh
| kNumericAttribute
| kDoubleLinearAttribute
| kFloatLinearAttribute
| kDoubleAngleAttribute
| kFloatAngleAttribute
| kTimeAttribute
| kEnumAttribute
| kTypedAttribute
| kMessageAttribute
| kCompoundAttribute
| kAttribute3Double.

#[global] Instance MFnType_eq_dec : EqDecision MFnType.
Proof. solve_decision. Defined.

Definition ANIM_CURVE_TYPES : list MFnType :=
  [kAnimCurveTimeToAngular;
   kAnimCurveTimeToDistance;
   kAnimCurveTimeToUnitless;
   kAnimCurveTimeToTime].

(** The curve types of set driven keys (UL, UA, UU, UT). *)
Definition DRIVEN_KEY_CURVE_TYPES : list MFnType :=
  [kAnimCurveUnitlessToAngular;
   kAnimCurveUnitlessToDistance;
   kAnimCurveUnitlessToUnitless;
   kAnimCurveUnitlessToTime].

Record MDistance : Type := mkMDistance { distance_value : float }.
Record MAngle : Type := mkMAngle { angle_value : float }.

(** What an attribute object is, with the default its function set reads. *)
Inductive OtherAttribute : Type :=
| OtherTime | OtherEnum | OtherTyped | OtherMessage | OtherCompound | Other3Double.

Inductive AttributeKind : Type :=
| NumericAttribute (default : Py.num)
| LinearAttribute (double : bool) (default : MDistance)
| AngleAttribute (double : bool) (default : MAngle)
| OtherKind (o : OtherAttribute).

Record MAttr : Type := mkAttr {
  attr_name : string;
  shortName : string;
  attr_kind : AttributeKind
}.

Definition attr_apiType (a : MAttr) : MFnType :=
  match attr_kind a with
  | NumericAttribute _ => kNumericAttribute
  | LinearAttribute true _ => kDoubleLinearAttribute
  | LinearAttribute false _ => kFloatLinearAttribute
  | AngleAttribute true _ => kDoubleAngleAttribute
  | AngleAttribute false _ => kFloatAngleAttribute
  | OtherKind OtherTime => kTimeAttribute
  | OtherKind OtherEnum => kEnumAttribute
  | OtherKind OtherTyped => kTypedAttribute
  | OtherKind OtherMessage => kMessageAttribute
  | OtherKind OtherCompound => kCompoundAttribute
  | OtherKind Other3Double => kAttribute3Double
  end.

(** A node handle, a function set attached to it, and a plug. *)
Record MObject : Type := mkNode {
  apiType : MFnType;
  absoluteName : string
}.

Record MFnDependencyNode : Type := MFnDependencyNode_ { fn_object : MObject }.

Record MPlug : Type := mkPlug {
  plug_node : MObject;
  plug_attribute : MAttr
}.

Definition is_anim_curve_type (t : MFnType) : bool :=
  bool_decide (t ∈ ANIM_CURVE_TYPES ++ DRIVEN_KEY_CURVE_TYPES).

(** [obj.hasFn(fn)]: every node is a dependency node, the eight curve node
    types are animation curves. *)
Definition hasFn (obj : MObject) (fn : MFnType) : bool :=
  match fn with
  | kDependencyNode => true
  | kAnimCurve => is_anim_curve_type (apiType obj)
  | _ => bool_decide (apiType obj = fn)
  end.

Inductive SelItemType : Type :=
| kDagSelectionItem
| kAnimSelectionItem
| kDNselectionItem
| kPlugSelectionItem
| kUnknownItem.

#[global] Instance SelItemType_eq_dec : EqDecision SelItemType.
Proof. solve_decision. Defined.

Record SelItem : Type := mkItem {
  itemType : SelItemType;
  getDependNode : MObject
}.

(** What the functions of [mods/utils.py] read from the running Maya. *)
Record Maya : Type := mkMaya {
  (* node.attributeCount() and node.attribute(index) *)
  dg_attributes : MObject → list MAttr;
  (* plug.connectedTo(asDst, asSrc) *)
  dg_connectedTo : MPlug → bool → bool → list MPlug;
  (* om.MGlobal.getActiveSelectionList() *)
  getActiveSelectionList : list SelItem;
  (* cmds.channelBox('mainChannelBox', q=True, selected...Attributes=True) *)
  selectedMainAttributes : option (list string);
  selectedShapeAttributes : option (list string);
  selectedHistoryAttributes : option (list string);
  selectedOutputAttributes : option (list string);
  (* cmds.getPanel(vis=True), cmds.getPanel(sty=...) *)
  getPanel_vis : list string;
  getPanel_graphEditor : option (list string);
  getPanel_dopeSheetPanel : option (list string)
}.

(** [om.MItSelectionList(sl_list, sl_filter)] visits the items of the list
    whose node supports the filter's function set; the remaining items are
    kept as a list, [isDone] is emptiness and [next] drops the head. *)
Definition MItSelectionList (sl_list : list SelItem) (sl_filter : MFnType)
  : list SelItem :=
  filter (fun item => hasFn (getDependNode item) sl_filter = true) sl_list.

Definition isDone (it : list SelItem) : bool :=
  match it with
  | [] => true
  | _ :: _ => false
  end.

(** [node.findPlug(attr, True)] with an attribute object of the node. *)
Definition findPlug (node : MFnDependencyNode) (attr : MAttr) : MPlug :=
  mkPlug (fn_object node) attr.

(** [node.findPlug(name, True)] with an attribute name: the API rejects a
    name the node has no attribute for. *)
Definition findPlug_by_name (m : Maya) (node : MFnDependencyNode) (name : string)
  : result MPlug :=
  match
    List.find (fun a => bool_decide (attr_name a = name ∨ shortName a = name))
              (dg_attributes m (fn_object node))
  with
  | Some a => Ok (findPlug node a)
  | None => Raise HostError
  end.

(** [om.MFnNumericAttribute(attr_obj).default] and
    [om.MFnUnitAttribute(attr_obj).default]: a function set rejects an object
    of another kind. *)
Inductive UnitDefault : Type :=
| DistanceDefault (d : MDistance)
| AngleDefault (a : MAngle).

Definition MFnNumericAttribute_default (attr_obj : MAttr) : result Py.num :=
  match attr_kind attr_obj with
  | NumericAttribute d => Ok d
  | _ => Raise HostError
  end.

Definition MFnUnitAttribute_default (attr_obj : MAttr) : result UnitDefault :=
  match attr_kind attr_obj with
  | LinearAttribute _ d => Ok (DistanceDefault d)
  | AngleAttribute _ a => Ok (AngleDefault a)
  | _ => Raise HostError
  end.

(** [om.MDistance(d)] and [om.MAngle(a)] copy a value of their own class. *)
Definition MDistance_copy (d : UnitDefault) : result MDistance :=
  match d with
  | DistanceDefault d => Ok d
  | AngleDefault _ => Raise TypeError
  end.

Definition MAngle_copy (d : UnitDefault) : result MAngle :=
  match d with
  | AngleDefault a => Ok a
  | DistanceDefault _ => Raise TypeError
  end.

(** ** [mods/utils.py]: selection and curves *)

Definition get_selected_objects (m : Maya) : list MFnDependencyNode :=
  let sl_list := getActiveSelectionList m in
  let sl_filter := kDependencyNode in
  let it := MItSelectionList sl_list sl_filter in
  fold_left
    (fun nodes item =>
       if bool_decide (itemType item = kDagSelectionItem
                       ∨ itemType item = kDNselectionItem)
       then nodes ++ [MFnDependencyNode_ (getDependNode item)]
       else nodes)
    it [].

Definition set_of_names (s : list string) : gset string := list_to_set s.

Definition get_channelbox_attributes (m : Maya) : option (gset string) :=
  let attr : gset string := ∅ in
  let s1 := selectedMainAttributes m in
  let s2 := selectedShapeAttributes m in
  let s3 := selectedHistoryAttributes m in
  let s4 := selectedOutputAttributes m in
  let attr := match s1 with
              | Some ((_ :: _) as s1) => attr ∪ set_of_names s1
              | _ => attr
              end in
  let attr := match s2 with
              | Some ((_ :: _) as s2) => attr ∪ set_of_names s2
              | _ => attr
              end in
  let attr := match s3 with
              | Some ((_ :: _) as s3) => attr ∪ set_of_names s3
              | _ => attr
              end in
  let attr := match s4 with
              | Some ((_ :: _) as s4) => attr ∪ set_of_names s4
              | _ => attr
              end in
  if bool_decide (size attr = 0%nat) then None else Some attr.

(** Truth value of [channelbox_attr] in [if channelbox_attr:]. *)
Definition channelbox_active (channelbox_attr : option (gset string)) : bool :=
  match channelbox_attr with
  | None => false
  | Some attrs => negb (bool_decide (size attrs = 0%nat))
  end.

Definition name_in (attr_name : string) (channelbox_attr : option (gset string))
  : bool :=
  match channelbox_attr with
  | None => false
  | Some attrs => bool_decide (attr_name ∈ attrs)
  end.

(** The body of the inner loop of [get_anim_curves_from_objects]. *)
Definition visit_attribute (m : Maya) (channelbox_attr : option (gset string))
    (node : MFnDependencyNode) (curve_list : list MFnDependencyNode) (attr : MAttr)
  : list MFnDependencyNode :=
  let plug := findPlug node attr in
  let connections := dg_connectedTo m plug true false in
  match connections with
  | [] => curve_list
  | connection :: _ =>
      let conn_node := plug_node connection in
      if hasFn conn_node kAnimCurve then
        if channelbox_active channelbox_attr
           && negb (name_in (shortName attr) channelbox_attr)
        then curve_list
        else
          let curve_type := apiType conn_node in
          if bool_decide (curve_type ∈ ANIM_CURVE_TYPES)
          then curve_list ++ [MFnDependencyNode_ conn_node]
          else curve_list
      else curve_list
  end.

Definition get_anim_curves_from_objects (m : Maya) (nodes : list MFnDependencyNode)
  : list MFnDependencyNode :=
  let curve_list := [] in
  let channelbox_attr := get_channelbox_attributes m in
  fold_left
    (fun curve_list node =>
       fold_left (visit_attribute m channelbox_attr node)
                 (dg_attributes m (fn_object node)) curve_list)
    nodes curve_list.

(** The dictionary is a finite map from absolute names; [values()] lists it in
    the map's own order. *)
Definition get_selected_anim_curves (m : Maya) : list MFnDependencyNode :=
  let sl_list := getActiveSelectionList m in
  let it := MItSelectionList sl_list kAnimCurve in
  let curve_dict : gmap string MFnDependencyNode :=
    fold_left
      (fun curve_dict item =>
         if bool_decide (itemType item = kDagSelectionItem
                         ∨ itemType item = kAnimSelectionItem
                         ∨ itemType item = kDNselectionItem)
         then
           let obj := getDependNode item in
           let curve_type := apiType obj in
           if bool_decide (curve_type ∈ ANIM_CURVE_TYPES)
           then
             let node := MFnDependencyNode_ obj in
             <[absoluteName (fn_object node) := node]> curve_dict
           else curve_dict
         else curve_dict)
      it ∅ in
  (map_to_list curve_dict).*2.

Definition get_anim_curve_default_value (m : Maya) (anim_curve : MFnDependencyNode)
  : result (option float) :=
  plug ← findPlug_by_name m anim_curve "output";
  let conn := dg_connectedTo m plug false true in
  match conn with
  | [] => Ok None
  | conn_plug :: _ =>
      let attr_obj := plug_attribute conn_plug in
      let api := attr_apiType attr_obj in
      if bool_decide (api = kNumericAttribute) then
        default ← MFnNumericAttribute_default attr_obj;
        Ok (Some (Py.to_float default))
      else if bool_decide (api ∈ [kDoubleLinearAttribute; kFloatLinearAttribute]) then
        default ← MFnUnitAttribute_default attr_obj;
        default ← MDistance_copy default;
        Ok (Some (distance_value default))
      else if bool_decide (api ∈ [kDoubleAngleAttribute; kFloatAngleAttribute]) then
        default ← MFnUnitAttribute_default attr_obj;
        default ← MAngle_copy default;
        Ok (Some (angle_value default))
      else Ok None
  end.

Definition is_graph_editor (m : Maya) : bool :=
  let sl_list := getActiveSelectionList m in
  let it := MItSelectionList sl_list kAnimCurve in
  let visible_panels := getPanel_vis m in
  let graph_panels := getPanel_graphEditor m in
  let dope_panels := getPanel_dopeSheetPanel m in
  let graph_vis :=
    match graph_panels with
    | Some graph_panels =>
        existsb (fun x => bool_decide (x ∈ graph_panels)) visible_panels
    | None => false
    end in
  let dope_vis :=
    match dope_panels with
    | Some dope_panels =>
        existsb (fun x => bool_decide (x ∈ dope_panels)) visible_panels
    | None => false
    end in
  negb (isDone it) && (graph_vis || dope_vis).

Definition clamp (value min_value max_value : float) : float :=
  if (value <? min_value)%float then min_value
  else if (max_value <? value)%float then max_value
  else value.

(** ** The state [tweener.py] works on *)

(** A key of a curve: the curve's absolute name and the key's index. *)
Abbreviation KeyRef := (string * nat)%type.

(** The interface of [mods/tween.py] that this development leaves open: how a
    press resolves the selection into a session (the edited keys and their
    targets) and which value a drag blends for a key.  No property of them is
    assumed. *)
Class TweenMath : Type := {
  Session : Type;
  resolve : option string → Maya → gmap KeyRef float → Session;
  edited_keys : Session → list KeyRef;
  blend : Session → Py.num → option string → gmap KeyRef float → KeyRef → float
}.

(** One recorded mutation of a change object. *)
Record Change : Type := mkChange {
  change_key : KeyRef;
  change_original : float;
  change_final : float
}.

(** The running Maya as the command sees it.  Change objects live in a store
    and are referred to by position, so that the command instances and the
    module-level [tween.anim_cache] can share one. *)
Record World `{TweenMath} : Type := mkWorld {
  maya : Maya;
  curve_values : gmap KeyRef float;
  change_objects : list (list Change);
  tween_anim_cache : option nat;
  tween_session : option Session;
  ui_visible : bool
}.
Arguments mkWorld {_} _ _ _ _ _ _.

Definition set_curve_values `{TweenMath} (v : gmap KeyRef float) (w : World) : World :=
  mkWorld (maya w) v (change_objects w) (tween_anim_cache w) (tween_session w)
          (ui_visible w).

Definition set_change_objects `{TweenMath} (h : list (list Change)) (w : World) : World :=
  mkWorld (maya w) (curve_values w) h (tween_anim_cache w) (tween_session w)
          (ui_visible w).

Definition set_tween_anim_cache `{TweenMath} (r : option nat) (w : World) : World :=
  mkWorld (maya w) (curve_values w) (change_objects w) r (tween_session w)
          (ui_visible w).

Definition set_tween_session `{TweenMath} (s : option Session) (w : World) : World :=
  mkWorld (maya w) (curve_values w) (change_objects w) (tween_anim_cache w) s
          (ui_visible w).

Definition set_ui_visible `{TweenMath} (b : bool) (w : World) : World :=
  mkWorld (maya w) (curve_values w) (change_objects w) (tween_anim_cache w)
          (tween_session w) b.

(** [oma.MAnimCurveChange()]: a new, empty change object at a position that
    held none. *)
Definition MAnimCurveChange_new `{TweenMath} (w : World) : nat * World :=
  (length (change_objects w), set_change_objects (change_objects w ++ [[]]) w).

(** Modelled from the spec: the change cache of section 4.5, the host's
    [MAnimCurveChange] object.  [record] appends once per key and keeps the
    original already recorded for a key; the last value written is kept for
    redo. *)
Fixpoint record_change (k : KeyRef) (original final : float) (c : list Change)
  : list Change :=
  match c with
  | [] => [mkChange k original final]
  | ch :: c' =>
      if bool_decide (change_key ch = k)
      then mkChange k (change_original ch) final :: c'
      else ch :: record_change k original final c'
  end.

(** Modelled from the spec: undo of section 4.5 (and section 3: replayed in
    reverse), every recorded key gets its original value back. *)
Definition undo_changes (c : list Change) (values : gmap KeyRef float)
  : gmap KeyRef float :=
  fold_left (fun values ch => <[change_key ch := change_original ch]> values)
            (reverse c) values.

(** Modelled from the spec: redo of section 4.5, every recorded key gets the
    last value the session gave it. *)
Definition redo_changes (c : list Change) (values : gmap KeyRef float)
  : gmap KeyRef float :=
  fold_left (fun values ch => <[change_key ch := change_final ch]> values)
            c values.

(** Modelled from the spec: [undoIt] and [redoIt] of the host's
    [MAnimCurveChange] object at a reference, after section 4.5. *)
Definition MAnimCurveChange_undoIt `{TweenMath} (ref : nat) (w : World)
  : result World :=
  match change_objects w !! ref with
  | Some c => Ok (set_curve_values (undo_changes c (curve_values w)) w)
  | None => Raise HostError
  end.

Definition MAnimCurveChange_redoIt `{TweenMath} (ref : nat) (w : World)
  : result World :=
  match change_objects w !! ref with
  | Some c => Ok (set_curve_values (redo_changes c (curve_values w)) w)
  | None => Raise HostError
  end.

(** Modelled from the spec: a value write of [mods/tween.py] (section 4.4,
    drag): the key's value before the write is recorded in the active change
    object, then the key gets the new value.  Nothing is written without an
    active change object or for a key the curves do not have. *)
Definition write_key `{TweenMath} (k : KeyRef) (v : float) (w : World) : World :=
  match tween_anim_cache w with
  | Some ref =>
      match change_objects w !! ref, curve_values w !! k with
      | Some c, Some old =>
          set_curve_values (<[k := v]> (curve_values w))
            (set_change_objects
               (<[ref := record_change k old v c]> (change_objects w)) w)
      | _, _ => w
      end
  | None => w
  end.

(** Modelled from the spec: the snapshot of a key at press (section 4.4), its
    current value is recorded and not changed. *)
Definition snapshot_key `{TweenMath} (w : World) (k : KeyRef) : World :=
  match curve_values w !! k with
  | Some current => write_key k current w
  | None => w
  end.

(** Modelled from the spec: [prepare] of [mods/tween.py], the press of section
    4.4.  The selection is resolved into a session that is held until the next
    press, and every affected key is snapshotted into the active change
    object.  [doIt] drops what [prepare] returns. *)
Definition prepare `{TweenMath} (t_type : option string) (w : World) : World :=
  let s := resolve t_type (maya w) (curve_values w) in
  fold_left snapshot_key (edited_keys s) (set_tween_session (Some s) w).

(** Modelled from the spec: [interpolate] of [mods/tween.py], the drag of
    section 4.4.  Every edited key of the session gets its blended value
    through the active change object; targets are not resolved again. *)
Definition interpolate `{TweenMath} (t : Py.num) (t_type : option string)
    (w : World) : World :=
  match tween_session w with
  | Some s =>
      fold_left
        (fun w k => write_key k (blend s t t_type (curve_values w) k) w)
        (edited_keys s) w
  | None => w
  end.

(** Modelled from the spec: [show] of [mods/ui.py]; the spec keeps every UI
    surface outside the core, so showing the window only makes it visible. *)
Definition ui_show `{TweenMath} (w : World) : World := set_ui_visible true w.

(** ** [tweener.py]: the command *)

(** The parsed argument list: the value given with each flag, when set. *)
Record MArgParser : Type := mkArgs {
  flag_interpolant : option float;
  flag_press : option bool;
  flag_type : option string
}.

Definition isFlagSet {A : Type} (flag : option A) : bool :=
  match flag with
  | Some _ => true
  | None => false
  end.

Definition numberOfFlagsUsed (arg_data : MArgParser) : nat :=
  (Nat.b2n (isFlagSet (flag_interpolant arg_data))
   + Nat.b2n (isFlagSet (flag_press arg_data))
   + Nat.b2n (isFlagSet (flag_type arg_data)))%nat.

(** [flagArgumentDouble] of a boolean flag. *)
Definition double_of_bool (b : bool) : float :=
  if b then 1%float else 0%float.

Record TweenerCmd : Type := mkCmd {
  anim_cache : option nat;
  blend_arg : Py.num;
  press_arg : Py.num;
  type_arg : option string
}.

(** A new instance sees the class attributes. *)
Definition cmd_creator : TweenerCmd :=
  mkCmd None (PyInt 0) (PyBool false) None.

Definition pass_args (self : TweenerCmd) (arg_data : MArgParser)
  : TweenerCmd * nat :=
  let self :=
    match flag_interpolant arg_data with
    | Some t => mkCmd (anim_cache self) (PyFloat t) (press_arg self) (type_arg self)
    | None => self
    end in
  let self :=
    match flag_press arg_data with
    | Some p => mkCmd (anim_cache self) (blend_arg self)
                      (PyFloat (double_of_bool p)) (type_arg self)
    | None => self
    end in
  let self :=
    match flag_type arg_data with
    | Some tp => mkCmd (anim_cache self) (blend_arg self) (press_arg self) (Some tp)
    | None => self
    end in
  (self, numberOfFlagsUsed arg_data).

Definition set_anim_cache (r : option nat) (self : TweenerCmd) : TweenerCmd :=
  mkCmd r (blend_arg self) (press_arg self) (type_arg self).

Definition doIt `{TweenMath} (self : TweenerCmd) (args : MArgParser) (w : World)
  : TweenerCmd * World :=
  let '(self, flags) := pass_args self args in
  if (flags =? 0)%nat then (self, ui_show w)
  else if Py.truthy (press_arg self) then
    let '(ref, w) := MAnimCurveChange_new w in
    let self := set_anim_cache (Some ref) self in
    let w := set_tween_anim_cache (anim_cache self) w in
    (self, prepare (type_arg self) w)
  else
    let self := set_anim_cache (tween_anim_cache w) self in
    (self, interpolate (blend_arg self) (type_arg self) w).

Definition redoIt `{TweenMath} (self : TweenerCmd) (w : World) : result World :=
  match anim_cache self with
  | Some ref => MAnimCurveChange_redoIt ref w
  | None => Raise AttributeError
  end.

Definition undoIt `{TweenMath} (self : TweenerCmd) (w : World) : result World :=
  match anim_cache self with
  | Some ref => MAnimCurveChange_undoIt ref w
  | None => Raise AttributeError
  end.

(** Maya makes a new command instance for every invocation. *)
Definition invoke `{TweenMath} (args : MArgParser) (w : World)
  : TweenerCmd * World :=
  doIt cmd_creator args w.

(** A session: the instances and the state after a press and the invocations
    that follow it. *)
Definition run_step `{TweenMath} (session : list TweenerCmd * World)
    (args : MArgParser) : list TweenerCmd * World :=
  let '(cmd, w) := invoke args session.2 in (session.1 ++ [cmd], w).

Definition run `{TweenMath} (invocations : list MArgParser) (w : World)
  : list TweenerCmd * World :=
  fold_left run_step invocations ([], w).

(** A time-driven curve, and not one of a driven key. *)
Definition time_driven (c : MFnDependencyNode) : Prop :=
  apiType (fn_object c) ∈ ANIM_CURVE_TYPES
  ∧ apiType (fn_object c) ∉ DRIVEN_KEY_CURVE_TYPES.

(** The curve of an eligible kind that feeds an attribute of a node, if any. *)
Definition eligible_curve (m : Maya) (node : MFnDependencyNode) (attr : MAttr)
  : list MFnDependencyNode :=
  match dg_connectedTo m (findPlug node attr) true false with
  | connection :: _ =>
      if hasFn (plug_node connection) kAnimCurve
         && bool_decide (apiType (plug_node connection) ∈ ANIM_CURVE_TYPES)
      then [MFnDependencyNode_ (plug_node connection)]
      else []
  | [] => []
  end.

(** The eligible curves that feed the attributes of [nodes] that [keep]
    accepts, in the order of the nodes and of their attributes. *)
Definition connected_curves (m : Maya) (keep : MAttr → bool)
    (nodes : list MFnDependencyNode) : list MFnDependencyNode :=
  node ← nodes;
  attr ← List.filter keep (dg_attributes m (fn_object node));
  eligible_curve m node attr.

(** The attributes that the loop of [get_anim_curves_from_objects] lets
    through for a given answer of the channel box. *)
Definition kept_by (cb : option (gset string)) (attr : MAttr) : bool :=
  negb (channelbox_active cb && negb (name_in (shortName attr) cb)).

(** The attribute kinds that have a default value to tween to. *)
Definition DEFAULT_VALUE_ATTRIBUTES : list MFnType :=
  [kNumericAttribute;
   kDoubleLinearAttribute; kFloatLinearAttribute;
   kDoubleAngleAttribute; kFloatAngleAttribute].

(** ** A small scene

    A cube whose translateX, rotateX and visibility are fed by curves; the
    curve of visibility is a driven-key curve. *)
Definition attr_output : MAttr :=
  mkAttr "output" "o" (NumericAttribute (PyFloat 0)).
Definition attr_translateX : MAttr :=
  mkAttr "translateX" "tx" (LinearAttribute true (mkMDistance 2.5)).
Definition attr_rotateX : MAttr :=
  mkAttr "rotateX" "rx" (AngleAttribute true (mkMAngle 0.5)).
Definition attr_visibility : MAttr :=
  mkAttr "visibility" "v" (NumericAttribute (PyBool true)).
Definition attr_message : MAttr :=
  mkAttr "message" "msg" (OtherKind OtherMessage).

Definition cube : MObject := mkNode kTransform "|cube".
Definition cube_translateX : MObject := mkNode kAnimCurveTimeToDistance "cube_translateX".
Definition cube_rotateX : MObject := mkNode kAnimCurveTimeToAngular "cube_rotateX".
Definition cube_visibility : MObject := mkNode kAnimCurveUnitlessToUnitless "cube_visibility".
Definition lonely_curve : MObject := mkNode kAnimCurveTimeToUnitless "lonely_curve".

Definition demo_attributes (obj : MObject) : list MAttr :=
  if String.eqb (absoluteName obj) "|cube"
  then [attr_message; attr_translateX; attr_rotateX; attr_visibility]
  else if bool_decide (apiType obj = kTransform) then [attr_message]
  else [attr_message; attr_output].

Definition demo_connectedTo (plug : MPlug) (asDst asSrc : bool) : list MPlug :=
  let node := absoluteName (plug_node plug) in
  let attr := attr_name (plug_attribute plug) in
  if asDst && String.eqb node "|cube" then
    if String.eqb attr "translateX" then [mkPlug cube_translateX attr_output]
    else if String.eqb attr "rotateX" then [mkPlug cube_rotateX attr_output]
    else if String.eqb attr "visibility" then [mkPlug cube_visibility attr_output]
    else []
  else if asSrc && String.eqb attr "output" then
    if String.eqb node "cube_translateX" then [mkPlug cube attr_translateX]
    else if String.eqb node "cube_rotateX" then [mkPlug cube attr_rotateX]
    else if String.eqb node "cube_visibility" then [mkPlug cube attr_visibility]
    else []
  else [].

Definition demo_maya (selection : list SelItem) (channelbox : option (list string))
    (visible : list string) : Maya :=
  mkMaya demo_attributes demo_connectedTo selection
         channelbox None None None
         visible (Some ["graphEditor1"]) None.

(** A selection: a curve twice (its node and its keys), a driven-key curve,
    the cube and a plug. *)
Definition demo_selection : list SelItem :=
  [mkItem kAnimSelectionItem cube_translateX;
   mkItem kDNselectionItem cube_translateX;
   mkItem kAnimSelectionItem cube_visibility;
   mkItem kDagSelectionItem cube;
   mkItem kPlugSelectionItem cube_rotateX].

(** The keys a change object has an entry for, and what it would restore. *)
Definition change_keys (c : list Change) : list KeyRef := change_key <$> c.

Definition originals (c : list Change) : list (KeyRef * float) :=
  (fun ch => (change_key ch, change_original ch)) <$> c.

(** An invocation with no flag at all. *)
Definition no_flags : MArgParser := mkArgs None None None.

(** A drag event: some flag is given and the press flag is not on. *)
Definition is_drag (args : MArgParser) : Prop :=
  flag_press args ≠ Some true ∧ numberOfFlagsUsed args ≠ 0%nat.

(** A change object after some writes: what it would restore is kept, entries
    are only added at the end, and no key gets a second entry. *)
Definition extends (c c' : list Change) : Prop :=
  originals c `prefix_of` originals c'
  ∧ (NoDup (change_keys c) → NoDup (change_keys c')).

(** The same for every change object of the store, position by position. *)
Definition objects_extend (h h' : list (list Change)) : Prop :=
  Forall2 extends h h'.

(** The state of a session that started from the curve values [values0] with
    the change object [ref]: the object is the active one, it restores
    values of [values0] only, and the keys it has no entry for still have
    their value of [values0]. *)
Definition session_inv `{TweenMath} (values0 : gmap KeyRef float) (ref : nat)
    (w : World) : Prop :=
  tween_anim_cache w = Some ref
  ∧ ∃ c, change_objects w !! ref = Some c
         ∧ (∀ k o, (k, o) ∈ originals c → values0 !! k = Some o)
         ∧ (∀ k, k ∉ change_keys c → curve_values w !! k = values0 !! k).

(** ** A small session

    One key is edited; a drag adds the interpolant to its value. *)
Definition demo_key : KeyRef := ("cube_translateX", 1%nat).

#[local] Instance demo_math : TweenMath := {|
  Session := unit;
  resolve := fun _ _ _ => tt;
  edited_keys := fun _ => [demo_key];
  blend := fun _ t _ values k =>
             (default 0%float (values !! k) + Py.to_float t)%float
|}.

Definition demo_world : World :=
  mkWorld (demo_maya [] None []) {[ demo_key := 2%float ]} [] None None false.

Definition press_on : MArgParser := mkArgs None (Some true) (Some "linear").

Definition drag_to (t : float) : MArgParser := mkArgs (Some t) None None.

(** ** What the further properties are stated with *)

(** The names a channel-box query answers, none for [None]. *)
Definition names_of (s : option (list string)) : list string := default [] s.

(** All the names the four channel-box queries answer. *)
Definition selected_names (m : Maya) : list string :=
  names_of (selectedMainAttributes m) ++ names_of (selectedShapeAttributes m)
  ++ names_of (selectedHistoryAttributes m) ++ names_of (selectedOutputAttributes m).

(** A selection item that [get_selected_objects] takes. *)
Definition node_item (item : SelItem) : Prop :=
  itemType item = kDagSelectionItem ∨ itemType item = kDNselectionItem.

(** A selection item that [get_selected_anim_curves] takes. *)
Definition curve_item (item : SelItem) : Prop :=
  (itemType item = kDagSelectionItem
   ∨ itemType item = kAnimSelectionItem
   ∨ itemType item = kDNselectionItem)
  ∧ apiType (getDependNode item) ∈ ANIM_CURVE_TYPES.

(** The default an attribute holds, as a float, for the kinds that have one. *)
Definition attribute_default (a : MAttr) : option float :=
  match attr_kind a with
  | NumericAttribute d => Some (Py.to_float d)
  | LinearAttribute _ d => Some (distance_value d)
  | AngleAttribute _ d => Some (angle_value d)
  | OtherKind _ => None
  end.

(** The number of attributes of a list of nodes. *)
Definition attribute_count (m : Maya) (nodes : list MFnDependencyNode) : nat :=
  sum_list ((fun node => length (dg_attributes m (fn_object node))) <$> nodes).

#[global] Instance node_item_dec item : Decision (node_item item).
Proof. unfold node_item. apply _. Defined.

#[global] Instance curve_item_dec item : Decision (curve_item item).
Proof. unfold curve_item. apply _. Defined.

(** The body of the loop of [get_selected_anim_curves]. *)
Definition add_selected_curve (curve_dict : gmap string MFnDependencyNode)
    (item : SelItem) : gmap string MFnDependencyNode :=
  if bool_decide (itemType item = kDagSelectionItem
                  ∨ itemType item = kAnimSelectionItem
                  ∨ itemType item = kDNselectionItem)
  then
    let obj := getDependNode item in
    let curve_type := apiType obj in
    if bool_decide (curve_type ∈ ANIM_CURVE_TYPES)
    then
      let node := MFnDependencyNode_ obj in
      <[absoluteName (fn_object node) := node]> curve_dict
    else curve_dict
  else curve_dict.

(** * Theorems *)

Section BezierPoints.

Import AnimCurve.

Lemma key_at_valid c i : valid_index c i = true → is_Some (key_at c i).
Proof.
  unfold valid_index, key_at. intros [H0 Hlt]%andb_prop.
  apply Z.leb_le in H0. apply Z.ltb_lt in Hlt.
  destruct (Z.ltb_spec i 0) as [?|_]; [lia|].
  apply lookup_lt_is_Some. lia.
Qed.

Lemma key_at_invalid c i : valid_index c i = false → key_at c i = None.
Proof.
  unfold valid_index, key_at. intros H.
  destruct (Z.ltb_spec i 0) as [?|Hge]; [done|].
  apply lookup_ge_None.
  apply andb_false_iff in H as [H|H].
  - apply Z.leb_gt in H. lia.
  - apply Z.ltb_ge in H. lia.
Qed.

Lemma bezier_points_eval c s e ks ke :
  key_at c s = Some ks → key_at c e = Some ke →
  get_curve_tangents_bezier_points c s e =
    Ok (mkPoint (asUnits (key_input ks) kSeconds) (key_value ks),
        mkPoint (asUnits (key_input ks) kSeconds + fst (key_tangent_out ks) / 3)%float
                (key_value ks + snd (key_tangent_out ks) / 3)%float,
        mkPoint (asUnits (key_input ke) kSeconds - fst (key_tangent_in ke) / 3)%float
                (key_value ke - snd (key_tangent_in ke) / 3)%float,
        mkPoint (asUnits (key_input ke) kSeconds) (key_value ke)).
Proof.
  intros Hs He.
  unfold get_curve_tangents_bezier_points, input, value, getTangentXY, at_key.
  rewrite Hs, He. reflexivity.
Qed.

(** C1. For a curve and two adjacent key indices that are both valid for it,
    the builder returns p1 = (time, value) of the start key with the time in
    seconds, p4 = (time, value) of the end key, p2 = p1 plus a third of the
    start key's outgoing tangent, and p3 = p4 minus a third of the end key's
    incoming tangent, componentwise. *)
Theorem bezier_points_adjacent_keys c startIndex endIndex :
  endIndex = startIndex + 1 →
  valid_index c startIndex = true →
  valid_index c endIndex = true →
  ∃ ks ke p1 p2 p3 p4,
    key_at c startIndex = Some ks ∧ key_at c endIndex = Some ke ∧
    get_curve_tangents_bezier_points c startIndex endIndex = Ok (p1, p2, p3, p4) ∧
    p1 = mkPoint (asUnits (key_input ks) kSeconds) (key_value ks) ∧
    p4 = mkPoint (asUnits (key_input ke) kSeconds) (key_value ke) ∧
    p2 = mkPoint (x p1 + fst (key_tangent_out ks) / 3)%float
                 (y p1 + snd (key_tangent_out ks) / 3)%float ∧
    p3 = mkPoint (x p4 - fst (key_tangent_in ke) / 3)%float
                 (y p4 - snd (key_tangent_in ke) / 3)%float.
Proof.
  intros _ [ks Hs]%key_at_valid [ke He]%key_at_valid.
  eexists ks, ke, _, _, _, _. split; [exact Hs|]. split; [exact He|].
  split; [apply (bezier_points_eval _ _ _ _ _ Hs He)|].
  repeat split.
Qed.

Lemma bezier_points_adjacent_keys_witness :
  get_curve_tangents_bezier_points demo_curve 0 1 =
    Ok (mkPoint 0 0, mkPoint 0.125 0.25, mkPoint 0.75 9.5, mkPoint 1 10)%float.
Proof.
  destruct (bezier_points_adjacent_keys demo_curve 0 1 eq_refl eq_refl eq_refl)
    as (ks & ke & p1 & p2 & p3 & p4 & Hs & He & Hr & -> & -> & -> & ->).
  vm_compute in Hs, He.
  injection Hs as <-. injection He as <-.
  rewrite Hr. vm_compute. reflexivity.
Defined.

(** C5, as the code has it.  The builder checks no range itself: with an
    index that is not valid for the curve it fails with the error of the curve
    accessor, and with two valid indices in any order, also with
    startIndex >= endIndex, it does not fail and returns the four points
    computed by the one-third rule from the keys at the two indices. *)
Theorem bezier_points_range_handling c startIndex endIndex :
  (valid_index c startIndex = false ∨ valid_index c endIndex = false →
   get_curve_tangents_bezier_points c startIndex endIndex = Raise HostError) ∧
  (valid_index c startIndex = true → valid_index c endIndex = true →
   ∃ ks ke,
     key_at c startIndex = Some ks ∧ key_at c endIndex = Some ke ∧
     get_curve_tangents_bezier_points c startIndex endIndex =
       Ok (mkPoint (asUnits (key_input ks) kSeconds) (key_value ks),
           mkPoint (asUnits (key_input ks) kSeconds + fst (key_tangent_out ks) / 3)%float
                   (key_value ks + snd (key_tangent_out ks) / 3)%float,
           mkPoint (asUnits (key_input ke) kSeconds - fst (key_tangent_in ke) / 3)%float
                   (key_value ke - snd (key_tangent_in ke) / 3)%float,
           mkPoint (asUnits (key_input ke) kSeconds) (key_value ke))).
Proof.
  split.
  - unfold get_curve_tangents_bezier_points, input, value, getTangentXY, at_key.
    intros [Hs|He].
    + rewrite (key_at_invalid _ _ Hs). reflexivity.
    + rewrite (key_at_invalid _ _ He).
      destruct (key_at c startIndex); reflexivity.
  - intros [ks Hs]%key_at_valid [ke He]%key_at_valid.
    exists ks, ke. split; [exact Hs|]. split; [exact He|].
    apply bezier_points_eval; assumption.
Qed.

Lemma bezier_points_range_handling_witness :
  get_curve_tangents_bezier_points demo_curve 0 2 = Raise HostError ∧
  get_curve_tangents_bezier_points demo_curve 1 0 =
    Ok (mkPoint 1 10, mkPoint 2 14, mkPoint (-0.5) (-2), mkPoint 0 0)%float.
Proof.
  split.
  - apply (bezier_points_range_handling demo_curve 0 2). right. reflexivity.
  - destruct (proj2 (bezier_points_range_handling demo_curve 1 0) eq_refl eq_refl)
      as (ks & ke & Hs & He & Hr).
    vm_compute in Hs, He. injection Hs as <-. injection He as <-.
    rewrite Hr. vm_compute. reflexivity.
Defined.

(** The claim C5 fails on the code: with the reversed indices (1, 0), or with
    twice the same index, both valid for a two-key curve, nothing fails. *)
Lemma bezier_points_reversed_indices_do_not_fail :
  (1 >= 0 ∧ ¬ fails (get_curve_tangents_bezier_points demo_curve 1 0)) ∧
  (0 >= 0 ∧ ¬ fails (get_curve_tangents_bezier_points demo_curve 0 0)).
Proof.
  split; (split; [lia|]); intros [e He]; vm_compute in He; discriminate He.
Qed.

End BezierPoints.

(** ** The curve resolvers *)

Section Resolvers.

Implicit Types (m : Maya) (node : MFnDependencyNode) (attr : MAttr).

Lemma anim_curve_types_time_driven obj :
  apiType obj ∈ ANIM_CURVE_TYPES → time_driven (MFnDependencyNode_ obj).
Proof.
  intros Hin. split; [exact Hin|]. simpl.
  unfold ANIM_CURVE_TYPES, DRIVEN_KEY_CURVE_TYPES in *.
  set_unfold. intros Hdk.
  destruct Hin as [?|[?|[?|[?|[]]]]];
    destruct Hdk as [?|[?|[?|[?|[]]]]]; congruence.
Qed.

Lemma visit_attribute_time_driven m cb node curve_list attr :
  Forall time_driven curve_list →
  Forall time_driven (visit_attribute m cb node curve_list attr).
Proof.
  intros Hacc. unfold visit_attribute.
  destruct (dg_connectedTo m (findPlug node attr) true false) as [|conn rest];
    [exact Hacc|].
  destruct (hasFn (plug_node conn) kAnimCurve); [|exact Hacc].
  destruct (channelbox_active cb && negb (name_in (shortName attr) cb));
    [exact Hacc|].
  case_bool_decide as Hty; [|exact Hacc].
  apply Forall_app. split; [exact Hacc|].
  apply Forall_singleton, anim_curve_types_time_driven, Hty.
Qed.

Lemma visit_attributes_time_driven m cb node attrs curve_list :
  Forall time_driven curve_list →
  Forall time_driven (fold_left (visit_attribute m cb node) attrs curve_list).
Proof.
  revert curve_list. induction attrs as [|attr attrs IH]; intros acc Hacc; simpl.
  - exact Hacc.
  - apply IH, visit_attribute_time_driven, Hacc.
Qed.

Lemma selected_curve_dict_time_driven (it : list SelItem)
    (d : gmap string MFnDependencyNode) :
  map_Forall (fun _ c => time_driven c) d →
  map_Forall (fun _ c => time_driven c)
    (fold_left
       (fun curve_dict item =>
          if bool_decide (itemType item = kDagSelectionItem
                          ∨ itemType item = kAnimSelectionItem
                          ∨ itemType item = kDNselectionItem)
          then
            if bool_decide (apiType (getDependNode item) ∈ ANIM_CURVE_TYPES)
            then <[absoluteName (getDependNode item)
                   := MFnDependencyNode_ (getDependNode item)]> curve_dict
            else curve_dict
          else curve_dict)
       it d).
Proof.
  revert d. induction it as [|item it IH]; intros d Hd; simpl; [exact Hd|].
  apply IH. case_bool_decide; [|exact Hd].
  case_bool_decide as Hty; [|exact Hd].
  apply map_Forall_insert_2; [|exact Hd].
  apply anim_curve_types_time_driven, Hty.
Qed.

(** C4. Every curve that a resolver returns, from the directly selected curves
    or from the attributes of the given nodes, has one of the four time-driven
    curve kinds, and none has the kind of a driven-key curve. *)
Theorem resolvers_return_time_driven_curves m (nodes : list MFnDependencyNode) :
  Forall time_driven (get_selected_anim_curves m)
  ∧ Forall time_driven (get_anim_curves_from_objects m nodes).
Proof.
  split.
  - unfold get_selected_anim_curves.
    apply Forall_fmap.
    eapply Forall_impl.
    + apply map_Forall_to_list.
      apply (selected_curve_dict_time_driven _ ∅), map_Forall_empty.
    + intros [name c] Hc. exact Hc.
  - unfold get_anim_curves_from_objects.
    generalize (get_channelbox_attributes m). intros cb.
    cut (∀ acc, Forall time_driven acc →
           Forall time_driven
             (fold_left
                (fun curve_list node =>
                   fold_left (visit_attribute m cb node)
                             (dg_attributes m (fn_object node)) curve_list)
                nodes acc)).
    { intros Hall. apply Hall. constructor. }
    induction nodes as [|node nodes IH]; intros acc Hacc; simpl; [exact Hacc|].
    apply IH, visit_attributes_time_driven, Hacc.
Qed.

Example selected_curves_once :
  get_selected_anim_curves (demo_maya demo_selection None [])
  = [MFnDependencyNode_ cube_translateX].
Proof. vm_compute. reflexivity. Qed.

Example selected_objects_nodes :
  get_selected_objects (demo_maya demo_selection None [])
  = [MFnDependencyNode_ cube_translateX; MFnDependencyNode_ cube].
Proof. reflexivity. Qed.

Example curves_of_selected_objects :
  get_anim_curves_from_objects (demo_maya demo_selection None [])
    (get_selected_objects (demo_maya demo_selection None []))
  = [MFnDependencyNode_ cube_translateX; MFnDependencyNode_ cube_rotateX].
Proof. reflexivity. Qed.

End Resolvers.

(** ** The channel-box restriction *)

Section ChannelBox.

Implicit Types (m : Maya) (node : MFnDependencyNode) (attr : MAttr).

Lemma visit_attribute_eligible m cb node curve_list attr :
  visit_attribute m cb node curve_list attr =
    curve_list ++ (if kept_by cb attr then eligible_curve m node attr else []).
Proof.
  unfold visit_attribute, eligible_curve, kept_by.
  destruct (dg_connectedTo m (findPlug node attr) true false) as [|conn rest].
  { destruct (negb _); by rewrite app_nil_r. }
  destruct (hasFn (plug_node conn) kAnimCurve); simpl.
  2: { destruct (negb _); by rewrite app_nil_r. }
  destruct (channelbox_active cb && negb (name_in (shortName attr) cb)); simpl.
  { by rewrite app_nil_r. }
  case_bool_decide; [done | by rewrite app_nil_r].
Qed.

Lemma visit_attributes_eligible m cb node attrs curve_list :
  fold_left (visit_attribute m cb node) attrs curve_list =
    curve_list ++ (attr ← List.filter (kept_by cb) attrs; eligible_curve m node attr).
Proof.
  revert curve_list. induction attrs as [|attr attrs IH]; intros acc; simpl.
  - by rewrite app_nil_r.
  - rewrite IH, visit_attribute_eligible.
    destruct (kept_by cb attr); simpl.
    + by rewrite <- app_assoc.
    + by rewrite app_nil_r.
Qed.

Lemma get_anim_curves_from_objects_connected m nodes :
  get_anim_curves_from_objects m nodes =
    connected_curves m (kept_by (get_channelbox_attributes m)) nodes.
Proof.
  unfold get_anim_curves_from_objects, connected_curves.
  generalize (get_channelbox_attributes m). intros cb.
  rewrite <- (app_nil_l (nodes ≫= _)).
  generalize (@nil MFnDependencyNode).
  induction nodes as [|node nodes IH]; intros acc; simpl.
  - by rewrite app_nil_r.
  - rewrite IH, visit_attributes_eligible. by rewrite <- app_assoc.
Qed.

Lemma get_channelbox_attributes_Some m names :
  get_channelbox_attributes m = Some names → names ≠ ∅.
Proof.
  unfold get_channelbox_attributes. case_bool_decide as Hsize; [done|].
  intros [= <-] Hempty. apply Hsize. rewrite Hempty. apply size_empty.
Qed.

Lemma kept_by_Some names attr :
  names ≠ ∅ → kept_by (Some names) attr = bool_decide (shortName attr ∈ names).
Proof.
  intros Hne. unfold kept_by, channelbox_active, name_in.
  case_bool_decide as Hsize.
  - contradict Hne. by apply size_empty_inv, leibniz_equiv in Hsize.
  - simpl. by rewrite negb_involutive.
Qed.

(** C8. When the channel box answers a set of names (it is then not empty),
    every curve that the object-based resolver returns is the eligible curve
    feeding an attribute of one of the nodes whose short name is in that set.
    When the channel box answers None, the resolver returns the eligible
    curves of all attributes of the nodes, whatever their names. *)
Theorem channelbox_restriction m (nodes : list MFnDependencyNode) :
  (∀ names, get_channelbox_attributes m = Some names →
     names ≠ ∅ ∧
     ∀ c, c ∈ get_anim_curves_from_objects m nodes →
       ∃ node attr,
         node ∈ nodes ∧ attr ∈ dg_attributes m (fn_object node) ∧
         shortName attr ∈ names ∧ c ∈ eligible_curve m node attr)
  ∧ (get_channelbox_attributes m = None →
     get_anim_curves_from_objects m nodes = connected_curves m (fun _ => true) nodes).
Proof.
  split.
  - intros names Hcb.
    pose proof (get_channelbox_attributes_Some _ _ Hcb) as Hne.
    split; [exact Hne|]. intros c.
    rewrite get_anim_curves_from_objects_connected, Hcb.
    unfold connected_curves.
    intros (node & Hc & Hnode)%list_elem_of_bind.
    apply list_elem_of_bind in Hc as (attr & Hc & Hattr).
    apply list_elem_of_In, filter_In in Hattr as [Hattr Hkept].
    rewrite (kept_by_Some _ _ Hne) in Hkept.
    apply bool_decide_eq_true in Hkept.
    exists node, attr. split; [exact Hnode|].
    split; [by apply list_elem_of_In|]. split; [exact Hkept | exact Hc].
  - intros Hcb. by rewrite get_anim_curves_from_objects_connected, Hcb.
Qed.

Lemma demo_channelbox_attributes selection visible :
  get_channelbox_attributes (demo_maya selection (Some ["tx"; "v"]) visible)
  = Some (set_of_names ["tx"; "v"]).
Proof.
  unfold get_channelbox_attributes.
  cbn [demo_maya selectedMainAttributes selectedShapeAttributes
       selectedHistoryAttributes selectedOutputAttributes].
  rewrite (left_id_L ∅ (∪)).
  rewrite bool_decide_false; [reflexivity|].
  unfold set_of_names. intros Hsize. apply size_empty_inv in Hsize.
  set_solver.
Qed.

Lemma channelbox_restriction_witness :
  (∀ c, c ∈ get_anim_curves_from_objects
               (demo_maya [] (Some ["tx"; "v"]) []) [MFnDependencyNode_ cube] →
        ∃ node attr,
          node ∈ [MFnDependencyNode_ cube] ∧
          attr ∈ demo_attributes (fn_object node) ∧
          shortName attr ∈ set_of_names ["tx"; "v"] ∧
          c ∈ eligible_curve (demo_maya [] (Some ["tx"; "v"]) []) node attr)
  ∧ get_anim_curves_from_objects (demo_maya [] None []) [MFnDependencyNode_ cube]
    = [MFnDependencyNode_ cube_translateX; MFnDependencyNode_ cube_rotateX].
Proof.
  split.
  - apply (proj1 (channelbox_restriction
                    (demo_maya [] (Some ["tx"; "v"]) [])
                    [MFnDependencyNode_ cube]) (set_of_names ["tx"; "v"])).
    apply demo_channelbox_attributes.
  - rewrite (proj2 (channelbox_restriction (demo_maya [] None [])
                      [MFnDependencyNode_ cube])); reflexivity.
Defined.

End ChannelBox.

(** ** The editable context *)

Section GraphEditor.

Implicit Types (m : Maya).

Lemma isDone_filtered (sl_list : list SelItem) fn :
  isDone (MItSelectionList sl_list fn) = false ↔
  ∃ item, item ∈ sl_list ∧ hasFn (getDependNode item) fn = true.
Proof.
  unfold MItSelectionList. split.
  - destruct (filter _ sl_list) as [|item it] eqn:Hit; [discriminate|].
    intros _. exists item.
    assert (item ∈ filter (fun item => hasFn (getDependNode item) fn = true) sl_list)
      as Hfiltered by (rewrite Hit; left).
    apply list_elem_of_filter in Hfiltered as [Hfn Hin]. by split.
  - intros (item & Hin & Hfn).
    assert (item ∈ filter (fun item => hasFn (getDependNode item) fn = true) sl_list)
      as Hfiltered by (by apply list_elem_of_filter).
    destruct (filter _ sl_list); [by apply elem_of_nil in Hfiltered | done].
Qed.

Lemma any_panel_visible (panels : option (list string)) (visible_panels : list string) :
  match panels with
  | Some panels => existsb (fun x => bool_decide (x ∈ panels)) visible_panels
  | None => false
  end = true ↔
  ∃ x ps, x ∈ visible_panels ∧ panels = Some ps ∧ x ∈ ps.
Proof.
  destruct panels as [ps|].
  - rewrite existsb_exists. split.
    + intros (x & Hin & Hx). exists x, ps.
      apply bool_decide_eq_true in Hx. by rewrite list_elem_of_In.
    + intros (x & ps' & Hin & [= <-] & Hx). exists x.
      rewrite bool_decide_eq_true. by rewrite <- list_elem_of_In.
  - split; [discriminate|]. by intros (x & ps & _ & ? & _).
Qed.

(** C9. The editable-context query answers true exactly when the active
    selection holds an animation curve and a visible panel is a Graph Editor
    or a Dope Sheet panel; when either fails it answers false. *)
Theorem is_graph_editor_true_iff m :
  is_graph_editor m = true ↔
    (∃ item, item ∈ getActiveSelectionList m
             ∧ hasFn (getDependNode item) kAnimCurve = true)
    ∧ (∃ panel, panel ∈ getPanel_vis m
                ∧ ((∃ graph_panels, getPanel_graphEditor m = Some graph_panels
                                    ∧ panel ∈ graph_panels)
                   ∨ (∃ dope_panels, getPanel_dopeSheetPanel m = Some dope_panels
                                     ∧ panel ∈ dope_panels))).
Proof.
  unfold is_graph_editor.
  rewrite andb_true_iff, negb_true_iff, orb_true_iff.
  rewrite isDone_filtered, !any_panel_visible.
  split.
  - intros [Hsel [(x & ps & Hx & Hps & Hin)|(x & ps & Hx & Hps & Hin)]];
      (split; [exact Hsel|]); exists x; (split; [exact Hx|]); eauto.
  - intros [Hsel (x & Hx & [(ps & Hps & Hin)|(ps & Hps & Hin)])];
      (split; [exact Hsel|]); [left|right]; eauto.
Qed.

Lemma is_graph_editor_true_iff_witness :
  is_graph_editor (demo_maya demo_selection None ["modelPanel4"; "graphEditor1"])
  = true.
Proof.
  apply is_graph_editor_true_iff. split.
  - exists (mkItem kAnimSelectionItem cube_translateX). split; [left|reflexivity].
  - exists "graphEditor1". split; [right; left|].
    left. exists ["graphEditor1"]. split; [reflexivity|left].
Defined.

Example is_graph_editor_hidden :
  is_graph_editor (demo_maya demo_selection None ["modelPanel4"]) = false.
Proof. reflexivity. Qed.

Example is_graph_editor_no_curve :
  is_graph_editor (demo_maya [mkItem kDagSelectionItem cube] None ["graphEditor1"])
  = false.
Proof. reflexivity. Qed.

End GraphEditor.

(** ** The default value of a curve's attribute *)

Section DefaultValue.

Implicit Types (m : Maya).

(** The default that an attribute of one of the five kinds holds. *)
Lemma default_value_of_connection m anim_curve plug conn_plug rest :
  findPlug_by_name m anim_curve "output" = Ok plug →
  dg_connectedTo m plug false true = conn_plug :: rest →
  get_anim_curve_default_value m anim_curve =
    Ok match attr_kind (plug_attribute conn_plug) with
       | NumericAttribute d => Some (Py.to_float d)
       | LinearAttribute _ d => Some (distance_value d)
       | AngleAttribute _ a => Some (angle_value a)
       | OtherKind _ => None
       end.
Proof.
  intros Hplug Hconn. unfold get_anim_curve_default_value.
  rewrite Hplug. simpl. rewrite Hconn.
  unfold attr_apiType, MFnNumericAttribute_default, MFnUnitAttribute_default.
  destruct (attr_kind (plug_attribute conn_plug)) as [d|[] d|[] a|[]];
    reflexivity.
Qed.

(** C6. For a curve (a node with an output plug) the default-value query never
    raises: it returns a float when the output is connected and the first
    attribute it drives is numeric, linear or angular, and None when the
    output is unconnected or that attribute is of another kind. *)
Theorem default_value_float_or_None m anim_curve plug :
  findPlug_by_name m anim_curve "output" = Ok plug →
  ∃ r : option float,
    get_anim_curve_default_value m anim_curve = Ok r
    ∧ ¬ fails (get_anim_curve_default_value m anim_curve)
    ∧ (is_Some r ↔
       ∃ conn_plug rest,
         dg_connectedTo m plug false true = conn_plug :: rest
         ∧ attr_apiType (plug_attribute conn_plug) ∈ DEFAULT_VALUE_ATTRIBUTES).
Proof.
  intros Hplug.
  destruct (dg_connectedTo m plug false true) as [|conn_plug rest] eqn:Hconn.
  - exists None.
    assert (get_anim_curve_default_value m anim_curve = Ok None) as Hr.
    { unfold get_anim_curve_default_value. rewrite Hplug. simpl.
      by rewrite Hconn. }
    rewrite Hr. split; [done|]. split; [by intros [e He]|].
    split; [by intros [f Hf] | by intros (c & r & Hc & _)].
  - rewrite (default_value_of_connection _ _ _ _ _ Hplug Hconn).
    eexists. split; [reflexivity|]. split; [by intros [e He]|].
    unfold DEFAULT_VALUE_ATTRIBUTES, attr_apiType. split.
    + intros Hsome. exists conn_plug, rest. split; [done|].
      destruct (attr_kind (plug_attribute conn_plug)) as [d|[] d|[] a|o];
        [by apply (bool_decide_unpack _)..|]. by destruct Hsome.
    + intros (c & r & [= <- <-] & Hin).
      destruct (attr_kind (plug_attribute conn_plug)) as [d|[] d|[] a|[]];
        try done; destruct (bool_decide_pack _ Hin).
Qed.

Lemma default_value_float_or_None_witness :
  get_anim_curve_default_value (demo_maya [] None [])
                               (MFnDependencyNode_ cube_translateX)
  = Ok (Some 2.5%float)
  ∧ get_anim_curve_default_value (demo_maya [] None [])
                                 (MFnDependencyNode_ lonely_curve)
    = Ok None.
Proof.
  split.
  - destruct (default_value_float_or_None (demo_maya [] None [])
                (MFnDependencyNode_ cube_translateX)
                (mkPlug cube_translateX attr_output) eq_refl)
      as (r & Hr & _ & _).
    rewrite Hr. vm_compute in Hr. injection Hr as <-. reflexivity.
  - destruct (default_value_float_or_None (demo_maya [] None [])
                (MFnDependencyNode_ lonely_curve)
                (mkPlug lonely_curve attr_output) eq_refl)
      as (r & Hr & _ & _).
    rewrite Hr. vm_compute in Hr. injection Hr as <-. reflexivity.
Defined.

Example default_value_of_driven_visibility :
  get_anim_curve_default_value (demo_maya [] None [])
                               (MFnDependencyNode_ cube_visibility)
  = Ok (Some 1%float).
Proof. reflexivity. Qed.

Example default_value_without_output_plug :
  get_anim_curve_default_value (demo_maya [] None []) (MFnDependencyNode_ cube)
  = Raise HostError.
Proof. reflexivity. Qed.

End DefaultValue.

(** ** The command and its change object *)

Section Command.

Context `{TweenMath}.

Implicit Types (w : World) (c : list Change) (k : KeyRef) (self : TweenerCmd).

(** *** What [record_change] keeps *)

Lemma record_change_originals k original final c :
  originals (record_change k original final c) =
    if bool_decide (k ∈ change_keys c) then originals c
    else originals c ++ [(k, original)].
Proof.
  induction c as [|ch c IH]; [done|].
  cbn [record_change]. unfold originals, change_keys in *.
  rewrite (fmap_cons change_key).
  destruct (decide (change_key ch = k)) as [Heq|Hne].
  - rewrite (bool_decide_true (change_key ch = k)) by done.
    rewrite (bool_decide_true (k ∈ _ :: _)) by (rewrite Heq; left).
    rewrite !fmap_cons. simpl. by rewrite Heq.
  - rewrite (bool_decide_false (change_key ch = k)) by done.
    rewrite fmap_cons, IH.
    destruct (decide (k ∈ change_key <$> c)) as [Hin|Hnin].
    + rewrite (bool_decide_true (k ∈ change_key <$> c)) by done.
      rewrite (bool_decide_true (k ∈ _ :: _)) by (by right). by rewrite fmap_cons.
    + rewrite (bool_decide_false (k ∈ change_key <$> c)) by done.
      rewrite (bool_decide_false (k ∈ _ :: _)); [by rewrite fmap_cons|].
      intros [Heq|Htail]%elem_of_cons; [by apply Hne | by apply Hnin].
Qed.

Lemma change_keys_originals c : change_keys c = (originals c).*1.
Proof.
  unfold change_keys, originals. rewrite <- list_fmap_compose.
  by apply list_fmap_ext.
Qed.

Lemma record_change_keys k original final c :
  change_keys (record_change k original final c) =
    if bool_decide (k ∈ change_keys c) then change_keys c
    else change_keys c ++ [k].
Proof.
  rewrite (change_keys_originals (record_change _ _ _ _)), record_change_originals.
  case_bool_decide; rewrite ?fmap_app, <- ?change_keys_originals; done.
Qed.

Lemma record_change_keys_elem k k' original final c :
  k' ∈ change_keys (record_change k original final c)
  ↔ k' = k ∨ k' ∈ change_keys c.
Proof.
  rewrite record_change_keys. case_bool_decide as Hin.
  - split; [by right|]. by intros [->|?].
  - rewrite elem_of_app, list_elem_of_singleton. tauto.
Qed.

Lemma record_change_NoDup k original final c :
  NoDup (change_keys c) → NoDup (change_keys (record_change k original final c)).
Proof.
  intros Hnd. rewrite record_change_keys. case_bool_decide as Hin; [done|].
  apply NoDup_app. split; [done|]. split.
  - intros k' Hk' ->%list_elem_of_singleton. by apply Hin.
  - apply NoDup_singleton.
Qed.

Lemma record_change_prefix k original final c :
  originals c `prefix_of` originals (record_change k original final c).
Proof.
  rewrite record_change_originals. case_bool_decide; [done|].
  by apply prefix_app_r.
Qed.

(** *** Frame properties of the writes *)

Lemma write_key_frame k v w :
  tween_anim_cache (write_key k v w) = tween_anim_cache w
  ∧ tween_session (write_key k v w) = tween_session w
  ∧ length (change_objects (write_key k v w)) = length (change_objects w).
Proof.
  unfold write_key. destruct (tween_anim_cache w) as [ref|] eqn:Href; [|done].
  destruct (change_objects w !! ref) as [c|]; [|done].
  destruct (curve_values w !! k) as [old|]; [|done].
  simpl. by rewrite length_insert.
Qed.

#[local] Instance extends_refl : Reflexive extends.
Proof. intros c. by split. Qed.

#[local] Instance extends_trans : Transitive extends.
Proof.
  intros c1 c2 c3 [Hp12 Hn12] [Hp23 Hn23]. split; [by etrans | auto].
Qed.

Lemma objects_extend_refl h : objects_extend h h.
Proof. by apply Forall2_same_length_lookup_2; [done|]; intros ??? -> [= <-]. Qed.

Lemma objects_extend_trans h1 h2 h3 :
  objects_extend h1 h2 → objects_extend h2 h3 → objects_extend h1 h3.
Proof. unfold objects_extend. intros H12 H23. by etrans. Qed.

Lemma write_key_extends k v w :
  objects_extend (change_objects w) (change_objects (write_key k v w)).
Proof.
  unfold write_key. destruct (tween_anim_cache w) as [ref|];
    [|apply objects_extend_refl].
  destruct (change_objects w !! ref) as [c|] eqn:Hc; [|apply objects_extend_refl].
  destruct (curve_values w !! k) as [old|]; [|apply objects_extend_refl].
  simpl. rewrite <- (list_insert_id (change_objects w) ref c Hc) at 1.
  apply Forall2_insert; [apply objects_extend_refl|].
  split; [apply record_change_prefix | apply record_change_NoDup].
Qed.

Lemma snapshot_key_frame w k :
  tween_anim_cache (snapshot_key w k) = tween_anim_cache w
  ∧ tween_session (snapshot_key w k) = tween_session w
  ∧ length (change_objects (snapshot_key w k)) = length (change_objects w).
Proof.
  unfold snapshot_key. destruct (curve_values w !! k); [|done].
  apply write_key_frame.
Qed.

Lemma snapshot_key_extends w k :
  objects_extend (change_objects w) (change_objects (snapshot_key w k)).
Proof.
  unfold snapshot_key. destruct (curve_values w !! k);
    [apply write_key_extends | apply objects_extend_refl].
Qed.

(** A loop of steps that each keep a property of the state keeps it. *)
Lemma fold_left_preserves {S A : Type} (P : S → Prop) (f : S → A → S) (l : list A) s :
  (∀ s a, P s → P (f s a)) → P s → P (fold_left f l s).
Proof.
  intros Hstep. revert s. induction l as [|a l IH]; intros s Hs; simpl; auto.
Qed.

Lemma interpolate_frame t t_type w :
  tween_anim_cache (interpolate t t_type w) = tween_anim_cache w
  ∧ length (change_objects (interpolate t t_type w)) = length (change_objects w)
  ∧ objects_extend (change_objects w) (change_objects (interpolate t t_type w)).
Proof.
  unfold interpolate. destruct (tween_session w) as [s|];
    [|split; [done|split; [done|apply objects_extend_refl]]].
  apply (fold_left_preserves
           (fun w' => tween_anim_cache w' = tween_anim_cache w
                      ∧ length (change_objects w') = length (change_objects w)
                      ∧ objects_extend (change_objects w) (change_objects w'))).
  - intros w' k (Href & Hlen & Hext).
    destruct (write_key_frame k (blend s t t_type (curve_values w') k) w')
      as (-> & _ & ->).
    split; [done|]. split; [done|].
    eapply objects_extend_trans; [exact Hext|apply write_key_extends].
  - split; [done|split; [done|apply objects_extend_refl]].
Qed.

Lemma prepare_frame t_type w :
  tween_anim_cache (prepare t_type w) = tween_anim_cache w
  ∧ length (change_objects (prepare t_type w)) = length (change_objects w)
  ∧ objects_extend (change_objects w) (change_objects (prepare t_type w)).
Proof.
  unfold prepare.
  apply (fold_left_preserves
           (fun w' => tween_anim_cache w' = tween_anim_cache w
                      ∧ length (change_objects w') = length (change_objects w)
                      ∧ objects_extend (change_objects w) (change_objects w'))).
  - intros w' k (Href & Hlen & Hext).
    destruct (snapshot_key_frame w' k) as (-> & _ & ->).
    split; [done|]. split; [done|].
    eapply objects_extend_trans; [exact Hext|apply snapshot_key_extends].
  - split; [done|split; [done|apply objects_extend_refl]].
Qed.

Lemma write_key_others k v w ref :
  tween_anim_cache w ≠ Some ref →
  change_objects (write_key k v w) !! ref = change_objects w !! ref.
Proof.
  intros Hother. unfold write_key.
  destruct (tween_anim_cache w) as [active|]; [|done].
  destruct (change_objects w !! active) as [c|]; [|done].
  destruct (curve_values w !! k) as [old|]; [|done].
  simpl. apply list_lookup_insert_ne. congruence.
Qed.

Lemma prepare_others t_type w ref :
  tween_anim_cache w ≠ Some ref →
  change_objects (prepare t_type w) !! ref = change_objects w !! ref.
Proof.
  intros Hother. unfold prepare.
  apply (fold_left_preserves
           (fun w' => tween_anim_cache w' = tween_anim_cache w
                      ∧ change_objects w' !! ref = change_objects w !! ref)).
  - intros w' k [Href Hsame]. unfold snapshot_key.
    destruct (curve_values w' !! k); [|done].
    destruct (write_key_frame k f w') as (-> & _ & _).
    split; [done|]. rewrite write_key_others; [done | by rewrite Href].
  - done.
Qed.

(** *** The invariant of a session *)

Lemma write_key_inv values0 ref k v w :
  session_inv values0 ref w → session_inv values0 ref (write_key k v w).
Proof.
  intros (Href & c & Hc & Horig & Hrest). unfold write_key.
  rewrite Href, Hc.
  destruct (curve_values w !! k) as [old|] eqn:Hold;
    [|by split; [|exists c]].
  split; [done|]. exists (record_change k old v c). simpl.
  split; [apply list_lookup_insert_eq; by eapply lookup_lt_Some|].
  split.
  - intros k' o. rewrite record_change_originals.
    case_bool_decide as Hin; [by apply Horig|].
    intros [?|[= -> ->]%list_elem_of_singleton]%elem_of_app; [by apply Horig|].
    by rewrite <- Hrest.
  - intros k'. rewrite record_change_keys_elem. intros Hnot.
    rewrite lookup_insert_ne by (intros ->; apply Hnot; by left).
    apply Hrest. intros Hin. apply Hnot. by right.
Qed.

Lemma snapshot_key_inv values0 ref w k :
  session_inv values0 ref w → session_inv values0 ref (snapshot_key w k).
Proof.
  intros Hinv. unfold snapshot_key.
  destruct (curve_values w !! k); [by apply write_key_inv | done].
Qed.

Lemma interpolate_inv values0 ref t t_type w :
  session_inv values0 ref w → session_inv values0 ref (interpolate t t_type w).
Proof.
  intros Hinv. unfold interpolate. destruct (tween_session w) as [s|]; [|done].
  apply (fold_left_preserves (session_inv values0 ref)); [|done].
  intros w' k Hw'. by apply write_key_inv.
Qed.

(** A press starts a session at the values the curves have then. *)
Lemma press_inv t_type w :
  session_inv (curve_values w) (length (change_objects w))
    (prepare t_type
       (set_tween_anim_cache (Some (length (change_objects w)))
          (set_change_objects (change_objects w ++ [[]]) w))).
Proof.
  unfold prepare.
  apply (fold_left_preserves
           (session_inv (curve_values w) (length (change_objects w)))).
  - intros w' k Hw'. by apply snapshot_key_inv.
  - split; [done|]. exists []. simpl.
    split; [by apply list_lookup_middle|].
    split; [by intros k o ?%elem_of_nil | done].
Qed.

(** Undoing the change object of a session gives back the values it began
    with. *)
Lemma undo_changes_restores (values0 : gmap KeyRef float) (l : list Change)
    (values : gmap KeyRef float) :
  (∀ ch, ch ∈ l → values0 !! change_key ch = Some (change_original ch)) →
  (∀ k, k ∉ change_keys l → values !! k = values0 !! k) →
  fold_left (fun values ch => <[change_key ch := change_original ch]> values)
            l values = values0.
Proof.
  revert values. induction l as [|ch l IH]; intros values Horig Hrest; simpl.
  - apply map_eq. intros k. apply Hrest. by intros ?%elem_of_nil.
  - apply IH.
    + intros ch' Hin. apply Horig. by right.
    + intros k Hnot. destruct (decide (change_key ch = k)) as [<-|Hne].
      * rewrite lookup_insert_eq. symmetry. apply Horig. by left.
      * rewrite lookup_insert_ne by done. apply Hrest.
        unfold change_keys. rewrite fmap_cons.
        intros [?|?]%elem_of_cons; [by apply Hne | by apply Hnot].
Qed.

Lemma undoIt_inv values0 ref self w :
  session_inv values0 ref w → anim_cache self = Some ref →
  ∃ w', undoIt self w = Ok w' ∧ curve_values w' = values0.
Proof.
  intros (_ & c & Hc & Horig & Hrest) Hself.
  unfold undoIt, MAnimCurveChange_undoIt. rewrite Hself, Hc.
  eexists. split; [reflexivity|]. simpl. unfold undo_changes.
  apply undo_changes_restores.
  - intros ch Hin. rewrite elem_of_reverse in Hin. apply Horig.
    unfold originals.
    by apply (list_elem_of_fmap_2 (fun ch => (change_key ch, change_original ch))).
  - intros k Hnot. apply Hrest. intros Hin. apply Hnot.
    unfold change_keys in *. by rewrite fmap_reverse, elem_of_reverse.
Qed.

(** *** The branches of [doIt] *)

Lemma press_arg_on self args :
  flag_press args = Some true →
  Py.truthy (press_arg (pass_args self args).1) = true
  ∧ (pass_args self args).2 ≠ 0%nat.
Proof.
  intros Hp. unfold pass_args, numberOfFlagsUsed. rewrite Hp. simpl.
  split; [|lia]. by destruct (flag_type args).
Qed.

Lemma press_arg_off args :
  flag_press args ≠ Some true →
  Py.truthy (press_arg (pass_args cmd_creator args).1) = false.
Proof.
  intros Hp. unfold pass_args.
  destruct args as [[t|] [[]|] [tp|]]; simpl in *;
    (reflexivity || by destruct Hp).
Qed.

Lemma doIt_press self args w :
  flag_press args = Some true →
  doIt self args w =
    (set_anim_cache (Some (length (change_objects w))) (pass_args self args).1,
     prepare (type_arg (pass_args self args).1)
       (set_tween_anim_cache (Some (length (change_objects w)))
          (set_change_objects (change_objects w ++ [[]]) w))).
Proof.
  intros Hp. destruct (press_arg_on self args Hp) as [Hon Hflags].
  unfold doIt. destruct (pass_args self args) as [self' flags]. simpl in *.
  destruct flags; [done|]. simpl. by rewrite Hon.
Qed.

Lemma invoke_drag args w :
  is_drag args →
  invoke args w =
    (set_anim_cache (tween_anim_cache w) (pass_args cmd_creator args).1,
     interpolate (blend_arg (pass_args cmd_creator args).1)
                 (type_arg (pass_args cmd_creator args).1) w).
Proof.
  intros [Hp Hflags]. pose proof (press_arg_off args Hp) as Hoff.
  unfold invoke, doIt.
  assert ((pass_args cmd_creator args).2 = numberOfFlagsUsed args) as Hn by done.
  destruct (pass_args cmd_creator args) as [self' flags]. simpl in *. subst flags.
  destruct (numberOfFlagsUsed args); [done|]. simpl. by rewrite Hoff.
Qed.

Lemma invoke_no_flags args w :
  numberOfFlagsUsed args = 0%nat → invoke args w = (cmd_creator, ui_show w).
Proof.
  unfold numberOfFlagsUsed.
  destruct args as [[t|] [p|] [tp|]]; simpl; intros; try lia. done.
Qed.

(** *** The claims about the command *)

(** C10. An invocation with zero flags only shows the UI and returns: the
    instance is left as it was, the state is the one [ui.show] leaves, no
    change object is made or touched, the module-level reference is unchanged
    and no curve value is written. *)
Theorem doIt_without_flags self args w :
  numberOfFlagsUsed args = 0%nat →
  (doIt self args w).1 = self
  ∧ (doIt self args w).2 = ui_show w
  ∧ change_objects (doIt self args w).2 = change_objects w
  ∧ tween_anim_cache (doIt self args w).2 = tween_anim_cache w
  ∧ curve_values (doIt self args w).2 = curve_values w.
Proof.
  unfold numberOfFlagsUsed. intros Hzero.
  destruct args as [[t|] [p|] [tp|]]; simpl in Hzero; try lia.
  by destruct self.
Qed.

(** C3. An invocation with the press flag on, whatever the state and the
    instance, makes a change object at a position of the store that held none,
    and makes it the one the module-level reference and the instance refer
    to; the store grows by that one object, every object it held before,
    the previously active one included, is left as it was at its position,
    and the new object restores values that the curves have at this press
    only. *)
Theorem press_installs_fresh_cache self args w :
  flag_press args = Some true →
  let ref := length (change_objects w) in
  let after := doIt self args w in
  change_objects w !! ref = None
  ∧ tween_anim_cache after.2 = Some ref
  ∧ anim_cache after.1 = Some ref
  ∧ length (change_objects after.2) = S (length (change_objects w))
  ∧ (∀ old c, change_objects w !! old = Some c →
       old ≠ ref ∧ change_objects after.2 !! old = Some c)
  ∧ (∃ c, change_objects after.2 !! ref = Some c
          ∧ ∀ k o, (k, o) ∈ originals c → curve_values w !! k = Some o).
Proof.
  intros Hp ref after. subst after. rewrite (doIt_press _ _ _ Hp).
  cbn [fst snd]. fold ref.
  generalize (pass_args self args).1. intros self'.
  set (w1 := set_tween_anim_cache (Some ref)
               (set_change_objects (change_objects w ++ [[]]) w)).
  destruct (prepare_frame (type_arg self') w1) as (Href & Hlen & _).
  split; [by apply lookup_ge_None|].
  split; [by rewrite Href|]. split; [done|].
  split; [rewrite Hlen; subst w1; cbn; rewrite length_app; simpl; lia|].
  split.
  - intros old c Hold.
    assert (old < ref)%nat as Hlt by (by eapply lookup_lt_Some).
    split; [lia|].
    rewrite prepare_others by (subst w1; cbn; intros [= ?]; lia).
    subst w1. cbn. by rewrite lookup_app_l.
  - destruct (press_inv (type_arg self') w) as (_ & c & Hc & Horig & _).
    exists c. by split.
Qed.

(** C7. An invocation without the press flag on leaves the module-level
    reference as it was and makes no change object; when a flag is given
    (a drag), the instance takes that same reference, every change object
    keeps the originals it had recorded, entries are only added at its end,
    and no key gets a second entry. *)
Theorem drag_reuses_cache args w :
  flag_press args ≠ Some true →
  let after := invoke args w in
  tween_anim_cache after.2 = tween_anim_cache w
  ∧ length (change_objects after.2) = length (change_objects w)
  ∧ objects_extend (change_objects w) (change_objects after.2)
  ∧ (numberOfFlagsUsed args ≠ 0%nat → anim_cache after.1 = tween_anim_cache w).
Proof.
  intros Hp after. subst after.
  destruct (decide (numberOfFlagsUsed args = 0%nat)) as [Hzero|Hflags].
  - rewrite (invoke_no_flags _ _ Hzero). cbn.
    split; [done|]. split; [done|]. split; [apply objects_extend_refl|done].
  - rewrite (invoke_drag args w) by done. cbn [fst snd].
    destruct (interpolate_frame (blend_arg (pass_args cmd_creator args).1)
                (type_arg (pass_args cmd_creator args).1) w)
      as (Href & Hlen & Hext).
    by repeat split.
Qed.

(** *** Undo of a session *)

Lemma run_drags values0 ref drags session :
  Forall is_drag drags →
  session_inv values0 ref session.2 →
  Forall (fun cmd => anim_cache cmd = Some ref) session.1 →
  session_inv values0 ref (fold_left run_step drags session).2
  ∧ Forall (fun cmd => anim_cache cmd = Some ref)
           (fold_left run_step drags session).1
  ∧ length (fold_left run_step drags session).1
    = (length session.1 + length drags)%nat.
Proof.
  intros Hdrags. revert session.
  induction Hdrags as [|args drags Hdrag _ IH]; intros [cmds w] Hinv Hcmds; simpl.
  - split; [done|]. split; [done|]. simpl in *. lia.
  - assert (run_step (cmds, w) args =
              (cmds ++ [set_anim_cache (tween_anim_cache w)
                          (pass_args cmd_creator args).1],
               interpolate (blend_arg (pass_args cmd_creator args).1)
                           (type_arg (pass_args cmd_creator args).1) w)) as ->.
    { unfold run_step. cbn [fst snd]. by rewrite (invoke_drag _ _ Hdrag). }
    destruct Hinv as (Href & Hinv). cbn [fst snd] in *.
    destruct (IH (cmds ++ [set_anim_cache (tween_anim_cache w)
                             (pass_args cmd_creator args).1],
                  interpolate (blend_arg (pass_args cmd_creator args).1)
                              (type_arg (pass_args cmd_creator args).1) w))
      as (Hinv' & Hcmds' & Hlen').
    + cbn [fst snd]. apply interpolate_inv. by split.
    + cbn [fst snd]. apply Forall_app. split; [done|].
      apply Forall_singleton. by rewrite Href.
    + split; [done|]. split; [done|].
      rewrite Hlen'. cbn [fst snd]. rewrite length_app. simpl. lia.
Qed.

(** C2. After a press and any sequence of drags, undo through any command
    instance of the session (there is one per invocation) succeeds and leaves
    every curve value as it was before the press. *)
Theorem undo_restores_pre_session_values w0 press drags :
  flag_press press = Some true →
  Forall is_drag drags →
  let session := run (press :: drags) w0 in
  length session.1 = S (length drags)
  ∧ ∀ cmd, cmd ∈ session.1 →
      ∃ w', undoIt cmd session.2 = Ok w' ∧ curve_values w' = curve_values w0.
Proof.
  intros Hp Hdrags session. subst session. unfold run. cbn [fold_left].
  assert (run_step ([], w0) press =
            ([set_anim_cache (Some (length (change_objects w0)))
                (pass_args cmd_creator press).1],
             prepare (type_arg (pass_args cmd_creator press).1)
               (set_tween_anim_cache (Some (length (change_objects w0)))
                  (set_change_objects (change_objects w0 ++ [[]]) w0)))) as ->.
  { unfold run_step, invoke. cbn [fst snd]. by rewrite (doIt_press _ _ _ Hp). }
  match goal with
  | |- context [fold_left run_step drags ?s] => set (session := s)
  end.
  destruct (run_drags (curve_values w0) (length (change_objects w0)) drags session
              Hdrags) as (Hinv & Hcmds & Hlen).
  - apply press_inv.
  - by apply Forall_singleton.
  - split; [by rewrite Hlen|].
    intros cmd Hcmd. rewrite Forall_forall in Hcmds.
    by eapply undoIt_inv; [exact Hinv | apply Hcmds].
Qed.

End Command.

(** *** The claims on the small session *)

Lemma doIt_without_flags_witness :
  (doIt cmd_creator no_flags demo_world).1 = cmd_creator
  ∧ (doIt cmd_creator no_flags demo_world).2 = ui_show demo_world
  ∧ change_objects (doIt cmd_creator no_flags demo_world).2 = []
  ∧ tween_anim_cache (doIt cmd_creator no_flags demo_world).2 = None
  ∧ curve_values (doIt cmd_creator no_flags demo_world).2
    = curve_values demo_world.
Proof. exact (doIt_without_flags cmd_creator no_flags demo_world eq_refl). Defined.

Lemma press_installs_fresh_cache_witness :
  let after := doIt cmd_creator press_on (invoke press_on demo_world).2 in
  tween_anim_cache (invoke press_on demo_world).2 = Some 0%nat
  ∧ tween_anim_cache after.2 = Some 1%nat
  ∧ anim_cache after.1 = Some 1%nat
  ∧ length (change_objects after.2) = 2%nat.
Proof.
  intros after.
  destruct (press_installs_fresh_cache cmd_creator press_on demo_world eq_refl)
    as (_ & Href0 & _ & Hlen0 & _).
  destruct (press_installs_fresh_cache cmd_creator press_on
              (invoke press_on demo_world).2 eq_refl)
    as (_ & Href & Hself & Hlen & _).
  fold after in Href, Hself, Hlen. unfold invoke in *.
  rewrite Hlen0 in Href, Hself, Hlen. by rewrite Href0, Href, Hself, Hlen.
Defined.

Lemma drag_reuses_cache_witness :
  let w := (invoke press_on demo_world).2 in
  let after := invoke (drag_to 0.5) w in
  tween_anim_cache after.2 = tween_anim_cache w
  ∧ length (change_objects after.2) = length (change_objects w)
  ∧ objects_extend (change_objects w) (change_objects after.2)
  ∧ anim_cache after.1 = tween_anim_cache w.
Proof.
  intros w after.
  destruct (drag_reuses_cache (drag_to 0.5) w) as (Href & Hlen & Hext & Hself);
    [discriminate|].
  split; [exact Href|]. split; [exact Hlen|]. split; [exact Hext|].
  apply Hself. discriminate.
Defined.

Lemma undo_restores_pre_session_values_witness :
  let session := run [press_on; drag_to 0.5; drag_to 0.25] demo_world in
  length session.1 = 3%nat
  ∧ ∀ cmd, cmd ∈ session.1 →
      ∃ w', undoIt cmd session.2 = Ok w'
            ∧ curve_values w' = curve_values demo_world.
Proof.
  apply (undo_restores_pre_session_values demo_world press_on
           [drag_to 0.5; drag_to 0.25]); [reflexivity|].
  repeat constructor; discriminate.
Defined.

Example session_values :
  let session := run [press_on; drag_to 0.5; drag_to 0.25] demo_world in
  curve_values session.2 !! demo_key = Some 2.75%float
  ∧ change_objects session.2 = [[mkChange demo_key 2 2.75]]
  ∧ tween_anim_cache session.2 = Some 0%nat.
Proof. vm_compute. by repeat split. Qed.

Example press_false_is_a_drag :
  let session := run [press_on; mkArgs (Some 4%float) (Some false) None] demo_world in
  curve_values session.2 !! demo_key = Some 6%float
  ∧ length (change_objects session.2) = 1%nat.
Proof. vm_compute. by repeat split. Qed.

Example undo_of_an_instance_without_flags :
  undoIt (invoke no_flags demo_world).1 demo_world = Raise AttributeError.
Proof. reflexivity. Qed.

(** * Further properties of the code *)

(** ** [clamp] *)

Section Clamp.

Lemma SFcompare_refl f : SFcompare f f = None ∨ SFcompare f f = Some Eq.
Proof.
  destruct f as [s|s| |s mant e]; simpl; [by right| |by left|].
  - right. by destruct s.
  - right. rewrite Z.compare_refl, Pos.compare_cont_refl. by destruct s.
Qed.

Lemma ltb_irrefl (v : float) : (v <? v)%float = false.
Proof.
  rewrite FloatAxioms.ltb_spec. unfold SFltb.
  by destruct (SFcompare_refl (Prim2SF v)) as [-> | ->].
Qed.

(** The three ways out of [clamp], with what the tests answered. *)
Lemma clamp_cases value min_value max_value :
  (clamp value min_value max_value = min_value
   ∧ (value <? min_value)%float = true)
  ∨ (clamp value min_value max_value = max_value
     ∧ (value <? min_value)%float = false ∧ (max_value <? value)%float = true)
  ∨ (clamp value min_value max_value = value
     ∧ (value <? min_value)%float = false ∧ (max_value <? value)%float = false).
Proof.
  unfold clamp.
  destruct (value <? min_value)%float; [by left|].
  destruct (max_value <? value)%float; [right; by left | right; by right].
Qed.

(** X1. When the upper bound is not below the lower bound, the clamped value
    is neither below the lower bound nor above the upper bound. *)
Theorem clamp_within_bounds value min_value max_value :
  (max_value <? min_value)%float = false →
  (clamp value min_value max_value <? min_value)%float = false
  ∧ (max_value <? clamp value min_value max_value)%float = false.
Proof.
  intros Hbounds.
  destruct (clamp_cases value min_value max_value)
    as [[-> _]|[[-> _]|[-> [Hlo Hhi]]]].
  - by rewrite ltb_irrefl.
  - by rewrite ltb_irrefl.
  - done.
Qed.

Lemma clamp_within_bounds_witness :
  (clamp 5 0 1 <? 0)%float = false ∧ (1 <? clamp 5 0 1)%float = false.
Proof. exact (clamp_within_bounds 5 0 1 eq_refl). Defined.

(** X2. When the upper bound is not below the lower bound, clamping a clamped
    value changes nothing. *)
Theorem clamp_idempotent value min_value max_value :
  (max_value <? min_value)%float = false →
  clamp (clamp value min_value max_value) min_value max_value
  = clamp value min_value max_value.
Proof.
  intros Hbounds.
  destruct (clamp_cases value min_value max_value)
    as [[-> _]|[[-> _]|[-> [Hlo Hhi]]]]; unfold clamp.
  - by rewrite ltb_irrefl, Hbounds.
  - by rewrite Hbounds, ltb_irrefl.
  - by rewrite Hlo, Hhi.
Qed.

Lemma clamp_idempotent_witness :
  clamp (clamp (-3) 0 1) 0 1 = clamp (-3) 0 1.
Proof. exact (clamp_idempotent (-3) 0 1 eq_refl). Defined.

(** X3. A value that is not a number is returned as it is, whatever the
    bounds: every comparison with it answers false. *)
Theorem clamp_nan value min_value max_value :
  PrimFloat.is_nan value = true →
  clamp value min_value max_value = value.
Proof.
  unfold PrimFloat.is_nan. intros Hnan.
  apply negb_true_iff in Hnan. rewrite FloatAxioms.eqb_spec in Hnan. unfold SFeqb in Hnan.
  assert (Prim2SF value = S754_nan) as Hsf.
  { destruct (Prim2SF value) as [s|s| |s mant e] eqn:Hv; [..|done|]; exfalso.
    - done.
    - by destruct s.
    - simpl in Hnan. rewrite Z.compare_refl, Pos.compare_cont_refl in Hnan.
      by destruct s. }
  unfold clamp. rewrite !FloatAxioms.ltb_spec, Hsf. unfold SFltb. simpl.
  by destruct (Prim2SF max_value).
Qed.

Lemma clamp_nan_witness : clamp nan 0 1 = nan.
Proof. exact (clamp_nan nan 0 1 eq_refl). Defined.

End Clamp.

(** ** The channel box *)

Section ChannelBoxNames.

Implicit Types (m : Maya) (s : option (list string)) (attr : gset string).

Lemma union_names s attr :
  match s with
  | Some ((_ :: _) as l) => attr ∪ set_of_names l
  | _ => attr
  end = attr ∪ list_to_set (names_of s).
Proof.
  destruct s as [[|name l]|]; simpl; [|done|]; by rewrite (right_id_L ∅ (∪)).
Qed.

Lemma list_to_set_empty_iff (l : list string) :
  size (list_to_set l : gset string) = 0%nat ↔ l = [].
Proof.
  split.
  - intros Hsize%size_empty_inv. destruct l as [|name l]; [done|].
    exfalso. apply (not_elem_of_empty (C:=gset string) name).
    rewrite <- Hsize. set_solver.
  - by intros ->.
Qed.

(** X4. The channel-box query answers None exactly when the four selections
    of the channel box hold no name at all, and otherwise the set of all the
    names they hold. *)
Theorem get_channelbox_attributes_selected_names m :
  get_channelbox_attributes m =
    if bool_decide (selected_names m = []) then None
    else Some (list_to_set (selected_names m)).
Proof.
  unfold get_channelbox_attributes, selected_names.
  rewrite !union_names, (left_id_L ∅ (∪)).
  rewrite <- !list_to_set_app_L, <- !app_assoc.
  set (names := names_of (selectedMainAttributes m) ++ _).
  destruct (decide (names = [])) as [Hnil|Hnames].
  - rewrite !bool_decide_true; [done..|]. by apply list_to_set_empty_iff.
  - rewrite !bool_decide_false; [done..|]. by rewrite list_to_set_empty_iff.
Qed.

End ChannelBoxNames.

(** ** The selected objects and the selected curves *)

Section Selection.

Implicit Types (m : Maya) (item : SelItem) (d : gmap string MFnDependencyNode).

Lemma MItSelectionList_all (sl_list : list SelItem) :
  MItSelectionList sl_list kDependencyNode = sl_list.
Proof.
  unfold MItSelectionList. induction sl_list as [|item sl IH]; [done|].
  rewrite filter_cons_True by done. by rewrite IH.
Qed.

Lemma selected_objects_loop (it : list SelItem) (nodes : list MFnDependencyNode) :
  fold_left
    (fun nodes item =>
       if bool_decide (itemType item = kDagSelectionItem
                       ∨ itemType item = kDNselectionItem)
       then nodes ++ [MFnDependencyNode_ (getDependNode item)]
       else nodes)
    it nodes
  = nodes ++ ((fun item => MFnDependencyNode_ (getDependNode item))
                <$> filter node_item it).
Proof.
  revert nodes. induction it as [|item it IH]; intros nodes; simpl.
  - by rewrite app_nil_r.
  - rewrite IH. destruct (decide (node_item item)) as [Hitem|Hitem].
    + rewrite bool_decide_true by done.
      rewrite filter_cons_True by done. by rewrite fmap_cons, <- app_assoc.
    + rewrite bool_decide_false by done. by rewrite filter_cons_False.
Qed.

(** X5. The selected objects are the nodes of the DAG and dependency-node
    items of the active selection, in the order of the selection; items of
    another type are skipped. *)
Theorem get_selected_objects_filter m :
  get_selected_objects m =
    (fun item => MFnDependencyNode_ (getDependNode item))
      <$> filter node_item (getActiveSelectionList m).
Proof.
  unfold get_selected_objects. rewrite MItSelectionList_all.
  by rewrite selected_objects_loop.
Qed.

(** What the dictionary of [get_selected_anim_curves] holds after the loop. *)
Lemma add_selected_curves_spec (it : list SelItem) d :
  (∀ name c, fold_left add_selected_curve it d !! name = Some c →
     d !! name = Some c
     ∨ ∃ item, item ∈ it ∧ curve_item item
               ∧ name = absoluteName (getDependNode item)
               ∧ c = MFnDependencyNode_ (getDependNode item))
  ∧ (∀ name, is_Some (d !! name) →
       is_Some (fold_left add_selected_curve it d !! name))
  ∧ (∀ item, item ∈ it → curve_item item →
       is_Some (fold_left add_selected_curve it d
                !! absoluteName (getDependNode item))).
Proof.
  revert d. induction it as [|item it IH]; intros d; simpl.
  { split; [by left|]. split; [done|]. by intros item ?%elem_of_nil. }
  destruct (IH (add_selected_curve d item)) as (Hsound & Hkeep & Hcomplete).
  assert (∀ name, is_Some (d !! name) →
            is_Some (add_selected_curve d item !! name)) as Hstep.
  { intros name Hname. unfold add_selected_curve.
    repeat case_bool_decide; [|done..]. simpl.
    destruct (decide (absoluteName (getDependNode item) = name)) as [->|Hne].
    - by rewrite lookup_insert_eq.
    - by rewrite lookup_insert_ne. }
  split; [|split].
  - intros name c [Hd|(item' & Hin & Hitem & -> & ->)]%Hsound.
    + unfold add_selected_curve in Hd.
      case_bool_decide as Htype; [|by left].
      case_bool_decide as Hcurve; [|by left]. simpl in Hd.
      destruct (decide (absoluteName (getDependNode item) = name)) as [<-|Hne].
      * rewrite lookup_insert_eq in Hd. injection Hd as <-.
        right. exists item. split; [left|]. split; [by split | by split].
      * rewrite lookup_insert_ne in Hd by done. by left.
    + right. exists item'. split; [by right|]. by split.
  - intros name Hname. by apply Hkeep, Hstep.
  - intros item' [->|Hin]%elem_of_cons Hitem; [|by apply Hcomplete].
    apply Hkeep. unfold add_selected_curve. destruct Hitem as [Htype Hcurve].
    rewrite !bool_decide_true by done. simpl. by rewrite lookup_insert_eq.
Qed.

Lemma get_selected_anim_curves_fold m :
  get_selected_anim_curves m =
    (map_to_list
       (fold_left add_selected_curve
          (MItSelectionList (getActiveSelectionList m) kAnimCurve) ∅)).*2.
Proof. reflexivity. Qed.

Lemma curve_item_hasFn item :
  curve_item item → hasFn (getDependNode item) kAnimCurve = true.
Proof.
  intros [_ Hcurve]. unfold hasFn, is_anim_curve_type.
  apply bool_decide_eq_true. apply elem_of_app. by left.
Qed.

(** X6. No two of the selected curves have the same absolute name: a curve
    that the selection holds more than once is returned once. *)
Theorem get_selected_anim_curves_NoDup m :
  NoDup ((fun c => absoluteName (fn_object c)) <$> get_selected_anim_curves m).
Proof.
  rewrite get_selected_anim_curves_fold.
  set (d := fold_left add_selected_curve _ ∅).
  assert (Forall (fun entry => absoluteName (fn_object entry.2) = entry.1)
                 (map_to_list d)) as Hnames.
  { apply Forall_forall. intros [name c] Hin%elem_of_map_to_list.
    destruct (add_selected_curves_spec
                (MItSelectionList (getActiveSelectionList m) kAnimCurve) ∅)
      as (Hsound & _).
    destruct (Hsound name c Hin) as [Hempty|(item & _ & _ & -> & ->)]; [|done].
    by rewrite lookup_empty in Hempty. }
  assert (((fun c => absoluteName (fn_object c)) <$> (map_to_list d).*2)
          = (map_to_list d).*1) as ->.
  { induction Hnames as [|entry l Hentry _ IH]; [done|].
    rewrite !fmap_cons. by rewrite IH, Hentry. }
  apply NoDup_fst_map_to_list.
Qed.

(** X7. Every selected curve is the node of a DAG, animation or
    dependency-node item of the active selection whose type is one of the four
    curve types, and for every such item a curve of its absolute name is
    returned. *)
Theorem get_selected_anim_curves_items m :
  (∀ c, c ∈ get_selected_anim_curves m →
     ∃ item, item ∈ getActiveSelectionList m ∧ curve_item item
             ∧ c = MFnDependencyNode_ (getDependNode item))
  ∧ (∀ item, item ∈ getActiveSelectionList m → curve_item item →
       ∃ c, c ∈ get_selected_anim_curves m
            ∧ absoluteName (fn_object c) = absoluteName (getDependNode item)).
Proof.
  rewrite get_selected_anim_curves_fold.
  destruct (add_selected_curves_spec
              (MItSelectionList (getActiveSelectionList m) kAnimCurve) ∅)
    as (Hsound & _ & Hcomplete).
  split.
  - intros c ([name c'] & -> & Hin%elem_of_map_to_list)%list_elem_of_fmap.
    destruct (Hsound name c' Hin) as [Hempty|(item & Hitem & Hcurve & _ & ->)].
    { by rewrite lookup_empty in Hempty. }
    exists item. split; [|done].
    unfold MItSelectionList in Hitem.
    by apply list_elem_of_filter in Hitem as [_ Hitem].
  - intros item Hin Hitem.
    destruct (Hcomplete item) as [c Hc]; [|done|].
    { unfold MItSelectionList. apply list_elem_of_filter.
      split; [by apply curve_item_hasFn | done]. }
    exists c. split.
    + apply list_elem_of_fmap. exists (absoluteName (getDependNode item), c).
      split; [done|]. by apply elem_of_map_to_list.
    + destruct (Hsound _ _ Hc) as [Hempty|(item' & _ & _ & Hname & ->)]; [|done].
      by rewrite lookup_empty in Hempty.
Qed.

Lemma get_selected_anim_curves_items_witness :
  (∃ item, item ∈ demo_selection ∧ curve_item item
           ∧ MFnDependencyNode_ cube_translateX
             = MFnDependencyNode_ (getDependNode item))
  ∧ (∃ c, c ∈ get_selected_anim_curves (demo_maya demo_selection None [])
          ∧ absoluteName (fn_object c) = "cube_translateX").
Proof.
  destruct (get_selected_anim_curves_items (demo_maya demo_selection None []))
    as [Hsound Hcomplete].
  split.
  - apply Hsound. vm_compute. left.
  - apply (Hcomplete (mkItem kDNselectionItem cube_translateX)).
    + right. left.
    + split; [by right; right|]. vm_compute. right. left.
Defined.

End Selection.

(** ** The curves of the nodes *)

Section ConnectedCurves.

Implicit Types (m : Maya) (node : MFnDependencyNode) (attr : MAttr).

(** X8. No eligible curve is lost: the curve feeding an attribute of one of
    the nodes is returned whenever the channel box answers no set of names or
    a set that holds the short name of the attribute. *)
Theorem get_anim_curves_from_objects_complete m nodes node attr c :
  node ∈ nodes →
  attr ∈ dg_attributes m (fn_object node) →
  c ∈ eligible_curve m node attr →
  (∀ names, get_channelbox_attributes m = Some names → shortName attr ∈ names) →
  c ∈ get_anim_curves_from_objects m nodes.
Proof.
  intros Hnode Hattr Hc Hname.
  rewrite get_anim_curves_from_objects_connected. unfold connected_curves.
  apply list_elem_of_bind. exists node. split; [|exact Hnode].
  apply list_elem_of_bind. exists attr. split; [exact Hc|].
  apply list_elem_of_In, filter_In. split; [by apply list_elem_of_In|].
  destruct (get_channelbox_attributes m) as [names|] eqn:Hcb; [|done].
  rewrite kept_by_Some by (by eapply get_channelbox_attributes_Some).
  apply bool_decide_eq_true. by apply Hname.
Qed.

Lemma get_anim_curves_from_objects_complete_witness :
  MFnDependencyNode_ cube_rotateX
  ∈ get_anim_curves_from_objects (demo_maya [] (Some ["rx"]) [])
      [MFnDependencyNode_ cube].
Proof.
  apply (get_anim_curves_from_objects_complete
           (demo_maya [] (Some ["rx"]) []) [MFnDependencyNode_ cube]
           (MFnDependencyNode_ cube) attr_rotateX).
  - left.
  - vm_compute. right. right. left.
  - vm_compute. left.
  - intros names Hcb.
    rewrite get_channelbox_attributes_selected_names in Hcb.
    injection Hcb as <-. set_solver.
Defined.

(** X9. The nodes are handled one after the other: the curves of two lists
    of nodes put end to end are the curves of the first followed by the
    curves of the second. *)
Theorem get_anim_curves_from_objects_app m (nodes1 nodes2 : list MFnDependencyNode) :
  get_anim_curves_from_objects m (nodes1 ++ nodes2)
  = get_anim_curves_from_objects m nodes1 ++ get_anim_curves_from_objects m nodes2.
Proof.
  rewrite !get_anim_curves_from_objects_connected. unfold connected_curves.
  apply bind_app.
Qed.

Lemma eligible_curve_length m node attr :
  (length (eligible_curve m node attr) ≤ 1)%nat.
Proof.
  unfold eligible_curve.
  destruct (dg_connectedTo m (findPlug node attr) true false); [simpl; lia|].
  destruct (_ && _); simpl; lia.
Qed.

(** X10. At most one curve is returned per attribute of the nodes: the
    connections of an attribute after the first are not looked at. *)
Theorem get_anim_curves_from_objects_length m (nodes : list MFnDependencyNode) :
  (length (get_anim_curves_from_objects m nodes) ≤ attribute_count m nodes)%nat.
Proof.
  rewrite get_anim_curves_from_objects_connected.
  unfold connected_curves, attribute_count.
  generalize (kept_by (get_channelbox_attributes m)). intros keep.
  induction nodes as [|node nodes IH]; [done|].
  cbn [mbind list_bind fmap list_fmap sum_list sum_list_with].
  rewrite length_app.
  assert (∀ attrs : list MAttr,
            (length (attr ← List.filter keep attrs; eligible_curve m node attr)
             ≤ length attrs)%nat) as Hattrs.
  { induction attrs as [|attr attrs IHattrs]; [done|]. simpl.
    destruct (keep attr); simpl; unfold mbind in *.
    - rewrite length_app. pose proof (eligible_curve_length m node attr). lia.
    - lia. }
  specialize (Hattrs (dg_attributes m (fn_object node))).
  unfold mbind in *. simpl in *. lia.
Qed.

End ConnectedCurves.

(** ** The default value *)

Section DefaultOfAttribute.

Implicit Types (m : Maya).

(** X11. The default-value query fails only when the node has no output
    plug, with the error of [findPlug]; otherwise it returns the default of
    the first attribute the output drives, converted to a float, and None
    when the output drives nothing or that attribute is of a kind without
    such a default.  No function set is ever applied to an attribute of
    another kind. *)
Theorem get_anim_curve_default_value_eq m anim_curve :
  get_anim_curve_default_value m anim_curve =
    match findPlug_by_name m anim_curve "output" with
    | Raise e => Raise e
    | Ok plug =>
        Ok (head (dg_connectedTo m plug false true)
              ≫= fun conn_plug => attribute_default (plug_attribute conn_plug))
    end.
Proof.
  destruct (findPlug_by_name m anim_curve "output") as [plug|e] eqn:Hplug.
  - destruct (dg_connectedTo m plug false true) as [|conn_plug rest] eqn:Hconn.
    + unfold get_anim_curve_default_value. rewrite Hplug. simpl.
      by rewrite Hconn.
    + by rewrite (default_value_of_connection _ _ _ _ _ Hplug Hconn).
  - unfold get_anim_curve_default_value. by rewrite Hplug.
Qed.

End DefaultOfAttribute.

(** ** The Bezier points and the other keys *)

Section BezierLocality.

Import AnimCurve.




End BezierLocality.

(** ** The flags and the instance *)

Section Flags.

Context `{TweenMath}.


(** X14. An instance holds no change object after an invocation with zero
    flags, and after a drag invoked while the module-level reference is None;
    undo and redo of such an instance raise AttributeError, in any state. *)
Theorem undo_redo_without_cache args w w' :
  numberOfFlagsUsed args = 0%nat ∨ (is_drag args ∧ tween_anim_cache w = None) →
  anim_cache (invoke args w).1 = None
  ∧ undoIt (invoke args w).1 w' = Raise AttributeError
  ∧ redoIt (invoke args w).1 w' = Raise AttributeError.
Proof.
  intros Hargs.
  assert (anim_cache (invoke args w).1 = None) as Hnone.
  { destruct Hargs as [Hzero|[Hdrag Href]].
    - by rewrite (invoke_no_flags _ _ Hzero).
    - by rewrite (invoke_drag _ _ Hdrag). }
  unfold undoIt, redoIt. by rewrite Hnone.
Qed.

End Flags.

Lemma undo_redo_without_cache_witness :
  anim_cache (invoke no_flags demo_world).1 = None
  ∧ undoIt (invoke no_flags demo_world).1 (invoke press_on demo_world).2
    = Raise AttributeError
  ∧ redoIt (invoke no_flags demo_world).1 (invoke press_on demo_world).2
    = Raise AttributeError.
Proof.
  apply (undo_redo_without_cache no_flags demo_world). by left.
Defined.

(** ** The selected curves and the editable context *)

Section SelectedCurvesContext.

Implicit Types (m : Maya).

(** X15. When a selected curve is returned and a Graph Editor or Dope Sheet
    panel is visible, the editable-context query answers true. *)
Theorem selected_curve_is_editable m c panel panels :
  c ∈ get_selected_anim_curves m →
  panel ∈ getPanel_vis m →
  (getPanel_graphEditor m = Some panels ∨ getPanel_dopeSheetPanel m = Some panels) →
  panel ∈ panels →
  is_graph_editor m = true.
Proof.
  intros Hc Hvisible Hpanels Hpanel.
  destruct (add_selected_curves_spec
              (MItSelectionList (getActiveSelectionList m) kAnimCurve) ∅)
    as (Hsound & _).
  rewrite get_selected_anim_curves_fold in Hc.
  apply list_elem_of_fmap in Hc as ([name c'] & -> & Hin%elem_of_map_to_list).
  destruct (Hsound name c' Hin) as [Hempty|(item & Hitem & Hcurve & _)].
  { by rewrite lookup_empty in Hempty. }
  unfold MItSelectionList in Hitem.
  apply list_elem_of_filter in Hitem as [Hfn Hitem].
  unfold is_graph_editor.
  apply andb_true_iff. split.
  - apply negb_true_iff, isDone_filtered. by exists item.
  - apply orb_true_iff.
    destruct Hpanels as [Hgraph|Hdope]; [left|right];
      apply any_panel_visible; by exists panel, panels.
Qed.

Lemma selected_curve_is_editable_witness :
  is_graph_editor (demo_maya demo_selection None ["graphEditor1"]) = true.
Proof.
  apply (selected_curve_is_editable
           (demo_maya demo_selection None ["graphEditor1"])
           (MFnDependencyNode_ cube_translateX) "graphEditor1" ["graphEditor1"]).
  - vm_compute. left.
  - left.
  - by left.
  - left.
Defined.

End SelectedCurvesContext.
